(** * Kleinanzeigen deal finder: the matching, filtering and seen-state core

    A shallow embedding of [kleinanzeigen.py].

    - A Python [str] is a list of Unicode code points ([N]).  Literals are
      written [py "..."], which decodes the UTF-8 bytes of a Rocq string.
    - A Python [float] is [pyfloat]: the exact rational ([Q]) its decimal
      literal denotes, or NaN.  Binary rounding and the infinities have
      no counterpart.  The price of a listing is a finite value.
    - What the program takes from the Python runtime and cannot be
      written down in a few lines (Unicode case mapping, the regex class
      [\d], [float()], the [json] codec, [str()] of a decoded JSON value)
      is the interface [PyRuntime], with one law: [float] of digits and
      dots is not NaN.  The general theorems hold for every
      instance; the worked examples run on [reference_runtime].
    - The state file, the warnings and the notification sinks are made
      explicit: functions that touch them run in the monad [IO], which
      threads a [Disk] and appends to a log of [Event]s. *)

From Stdlib Require Import QArith.
From Stdlib Require Import Ascii String.
From stdpp Require Import base list gmap sets strings sorting.

Set Warnings "-register-all".
Local Open Scope N_scope.

(** ** Strings *)

Abbreviation cp := N (only parsing).
Abbreviation str := (list N) (only parsing).

(** UTF-8 decoding of the bytes of a literal. *)
Fixpoint utf8_decode (bs : list N) : str :=
  match bs with
  | [] => []
  | b :: rest =>
      if b <? 128 then b :: utf8_decode rest
      else if b <? 224 then
        match rest with
        | b1 :: r => ((b - 192) * 64 + (b1 - 128)) :: utf8_decode r
        | [] => []
        end
      else if b <? 240 then
        match rest with
        | b1 :: b2 :: r =>
            ((b - 224) * 4096 + (b1 - 128) * 64 + (b2 - 128)) :: utf8_decode r
        | _ => []
        end
      else
        match rest with
        | b1 :: b2 :: b3 :: r =>
            ((b - 240) * 262144 + (b1 - 128) * 4096 + (b2 - 128) * 64 + (b3 - 128))
              :: utf8_decode r
        | _ => []
        end
  end.

Definition py (s : string) : str :=
  utf8_decode (map N_of_ascii (String.list_ascii_of_string s)).

(** [s.startswith(p)] *)
Fixpoint startswith (p s : str) : bool :=
  match p, s with
  | [], _ => true
  | _ :: _, [] => false
  | a :: p', b :: s' => (a =? b) && startswith p' s'
  end.

(** [needle in hay] on two strings: substring test. *)
Fixpoint str_in (needle hay : str) : bool :=
  startswith needle hay
  || match hay with
     | [] => false
     | _ :: hay' => str_in needle hay'
     end.

(** [s.replace(old, new)] for one-character [old]. *)
Definition replace_char (old : cp) (new : str) (s : str) : str :=
  flat_map (λ c, if c =? old then new else [c]) s.

(** [str.isspace] of one code point, as CPython's [_PyUnicode_IsWhitespace]. *)
Definition isspace (c : cp) : bool :=
  ((9 <=? c) && (c <=? 13)) || ((28 <=? c) && (c <=? 32))
  || (c =? 133) || (c =? 160) || (c =? 5760)
  || ((8192 <=? c) && (c <=? 8202))
  || (c =? 8232) || (c =? 8233) || (c =? 8239) || (c =? 8287) || (c =? 12288).

Fixpoint lstrip (s : str) : str :=
  match s with
  | [] => []
  | c :: s' => if isspace c then lstrip s' else s
  end.

Definition rstrip (s : str) : str := reverse (lstrip (reverse s)).

(** [s.strip()] *)
Definition strip (s : str) : str := rstrip (lstrip s).

(** [s.partition(sep)] for a one-character [sep]: head, whether the
    separator was found, tail. *)
Fixpoint partition (sep : cp) (s : str) : str * bool * str :=
  match s with
  | [] => ([], false, [])
  | c :: s' =>
      if c =? sep then ([], true, s')
      else let '(h, found, t) := partition sep s' in (c :: h, found, t)
  end.

(** [s.split(sep)] for a one-character [sep]. *)
Fixpoint split (sep : cp) (s : str) : list str :=
  match s with
  | [] => [[]]
  | c :: s' =>
      if c =? sep then [] :: split sep s'
      else match split sep s' with
           | w :: ws => (c :: w) :: ws
           | [] => [[c]]
           end
  end.

(** ** Decoded JSON values *)

Inductive json :=
| JNull
| JBool (b : bool)
| JNum (literal : str)
| JStr (s : str)
| JList (items : list json)
| JObj (members : list (str * json)).

(** What [json.loads] does: it returns a value, raises
    [json.JSONDecodeError], or raises something else ([RecursionError] on
    deep nesting, [ValueError] on an integer beyond the digit limit). *)
Inductive json_result :=
| Decoded (v : json)
| JSONDecodeError
| JsonRaises.

(** ** Floats *)

Inductive pyfloat :=
| Fin (q : Q)
| NaN.

(** [x < y] on finite values. *)
Definition Qltb (x y : Q) : bool :=
  (Qnum x * QDen y <? Qnum y * QDen x)%Z.

(** [x < y] and [x <= y] on floats: false as soon as one side is NaN. *)
Definition float_lt (x y : pyfloat) : bool :=
  match x, y with
  | Fin a, Fin b => Qltb a b
  | _, _ => false
  end.


(** ** The Python runtime *)

Class PyRuntime := {
  (** [str.lower] *)
  str_lower : str → str;
  (** the regular-expression class [\d] *)
  re_digit : cp → bool;
  (** [float(s)]; [None] stands for [ValueError] *)
  py_float : str → option pyfloat;
  (** [json.loads(s)] *)
  json_loads : str → json_result;
  (** [json.dumps(v)] *)
  json_dumps : json → str;
  (** [str(v)] of a decoded JSON value that is not itself a string *)
  value_repr : json → str;
  (** [float] of a text made of digits and dots is not NaN *)
  py_float_digits :
    ∀ s, Forall (λ c, re_digit c = true ∨ c = 46) s → py_float s ≠ Some NaN
}.

(** ** Data model *)

Record Listing := {
  title : str;
  price : Q;
  location : str;
  url : str;
  term : str
}.

Record SearchTermConfig := {
  cfg_term : str;
  min_price : option pyfloat;
  max_price : option pyfloat
}.

(** ** Title filter *)

Definition DEFAULT_TITLE_BLACKLIST : list str :=
  [ py "gaming pc";
    py "pc ";
    py " setup";
    py "bundle";
    py "komplett";
    py "rechner";
    py "fertig";
    py "wasserkühlung";
    py "wasserkuehlung" ].

Section TitleFilter.
Context `{PyRuntime}.

(** The gaming-PC rule: the title names "gaming" with "pc" or "setup"
    and the search term names none of the three. *)
Definition gaming_rule (t term_lower : str) : bool :=
  (str_in (py "gaming") t && (str_in (py "pc") t || str_in (py "setup") t))
  && (negb (str_in (py "gaming") term_lower)
      && negb (str_in (py "pc") term_lower)
      && negb (str_in (py "setup") term_lower)).

(** One of the two [for bad in ...] loops, on already prepared entries:
    an entry occurring in the term is skipped, the first other entry
    occurring in the title excludes. *)
Fixpoint blacklist_loop (entries : list str) (t term_lower : str) : bool :=
  match entries with
  | [] => false
  | bad :: rest =>
      if str_in bad term_lower then blacklist_loop rest t term_lower
      else if str_in bad t then true
      else blacklist_loop rest t term_lower
  end.

Definition is_blacklisted_title
    (title search_term : str) (extra_blacklist : option (list str)) : bool :=
  let t := str_lower title in
  let term_lower := str_lower search_term in
  if gaming_rule t term_lower then true
  else if blacklist_loop DEFAULT_TITLE_BLACKLIST t term_lower then true
  else match extra_blacklist with
       | Some ((_ :: _) as extra) =>
           blacklist_loop (str_lower <$> extra) t term_lower
       | _ => false
       end.
End TitleFilter.

(** ** Price normalizer *)

Section PriceNormalizer.
Context `{PyRuntime}.

(** The longest run of [\d] at the head of [s], and what follows it. *)
Fixpoint re_digits (s : str) : str * str :=
  match s with
  | c :: s' =>
      if re_digit c then let '(ds, rest) := re_digits s' in (c :: ds, rest)
      else ([], s)
  | [] => ([], [])
  end.

(** The optional group [(?:[\.,]\d{1,2})?] at the head of [s]. *)
Definition re_fraction (s : str) : str :=
  match s with
  | sep :: d1 :: rest =>
      if ((sep =? 46) || (sep =? 44)) && re_digit d1 then
        sep :: d1 :: match rest with
                     | d2 :: _ => if re_digit d2 then [d2] else []
                     | [] => []
                     end
      else []
  | _ => []
  end.

(** [re.search(r"(\d+(?:[\.,]\d{1,2})?)", s)]: group 1 of the leftmost
    match.  A match starts at the first digit; [\d+] is greedy and the
    optional group never makes it give digits back. *)
Fixpoint re_search_price (s : str) : option str :=
  match s with
  | [] => None
  | c :: s' =>
      if re_digit c then
        let '(ds, rest) := re_digits s in Some (ds ++ re_fraction rest)
      else re_search_price s'
  end.

Definition parse_price (text : str) : option Q :=
  let text := strip text in
  match text with
  | [] => None
  | _ =>
      if str_in (py "zu verschenken") (str_lower text)
         || str_in (py "tausch") (str_lower text)
      then None
      else
        match re_search_price (replace_char 160 (py " ") text) with
        | None => None
        | Some m =>
            let val := replace_char 44 (py ".") (replace_char 46 [] m) in
            match py_float val with
            | Some (Fin p) => Some p
            | Some NaN => None (* never, see [parse_price_float_not_nan] *)
            | None => None
            end
        end
  end.
End PriceNormalizer.

(** ** Candidate source and match engine *)

(** What the page extraction yields for one ad that has a title anchor:
    the anchor's text and [href], the text of the price element (empty
    when there is none) and of the location element. *)
Record RawAd := {
  ad_title : str;
  ad_href : str;
  ad_price_text : str;
  ad_location : str
}.

(** The HTTP request and the HTML selection of [fetch_listings_for_term]:
    the ads of the result page of a term, or [None] when the request or
    the parse raises. *)
Abbreviation CandidateSource := (str → option (list RawAd)) (only parsing).

Section MatchEngine.
Context `{PyRuntime}.
Variable source : CandidateSource.

(** The body of the [for ad in ...] loop from the title on. *)
Definition listing_of_ad
    (term : str) (extra_blacklist : option (list str)) (ad : RawAd)
    : option Listing :=
  if is_blacklisted_title (ad_title ad) term extra_blacklist then None
  else
    let href :=
      if startswith (py "http") (ad_href ad) then ad_href ad
      else py "https://www.kleinanzeigen.de" ++ ad_href ad in
    match parse_price (ad_price_text ad) with
    | None => None
    | Some p =>
        Some {| title := ad_title ad; price := p;
                location := ad_location ad; url := href; term := term |}
    end.

Definition fetch_listings_for_term
    (term : str) (extra_blacklist : option (list str))
    : option (list Listing) :=
  match source term with
  | None => None
  | Some ads => Some (omap (listing_of_ad term extra_blacklist) ads)
  end.

(** [a if a is not None else b] *)
Definition if_not_none (a b : option pyfloat) : option pyfloat :=
  match a with Some _ => a | None => b end.

(** The inner [for listing in listings] loop. *)
Fixpoint price_filter
    (effective_min effective_max : option pyfloat) (listings : list Listing)
    : list Listing :=
  match listings with
  | [] => []
  | listing :: rest =>
      if match effective_min with
         | Some m => float_lt (Fin (price listing)) m
         | None => false
         end
      then price_filter effective_min effective_max rest
      else if match effective_max with
              | Some m => float_lt m (Fin (price listing))
              | None => false
              end
      then price_filter effective_min effective_max rest
      else listing :: price_filter effective_min effective_max rest
  end.

(** The [for cfg in configs] loop: a term whose fetch raises is skipped. *)
Fixpoint collect_hits
    (min_price0 max_price0 : option pyfloat) (extra_blacklist : option (list str))
    (configs : list SearchTermConfig) : list Listing :=
  match configs with
  | [] => []
  | cfg :: rest =>
      match fetch_listings_for_term (cfg_term cfg) extra_blacklist with
      | None => collect_hits min_price0 max_price0 extra_blacklist rest
      | Some listings =>
          price_filter (if_not_none (min_price cfg) min_price0)
                       (if_not_none (max_price cfg) max_price0) listings
          ++ collect_hits min_price0 max_price0 extra_blacklist rest
      end
  end.
End MatchEngine.

(** The deduplication loop, from a given [seen_urls]. *)
Fixpoint dedup_loop (seen_urls : gset str) (all_hits : list Listing)
    : list Listing :=
  match all_hits with
  | [] => []
  | listing :: rest =>
      if decide (url listing ∈ seen_urls) then dedup_loop seen_urls rest
      else listing :: dedup_loop ({[url listing]} ∪ seen_urls) rest
  end.

(** [sorted(l, key=...)]: Python's sort is stable; it is modelled by the
    stable insertion sort, [lt] being [<] on the keys. *)
Section Sorted.
Context {A K : Type} (lt : K → K → bool) (key : A → K).

Fixpoint insert_sorted (x : A) (l : list A) : list A :=
  match l with
  | [] => [x]
  | y :: l' =>
      if lt (key y) (key x) then y :: insert_sorted x l' else x :: l
  end.

Fixpoint sorted (l : list A) : list A :=
  match l with
  | [] => []
  | x :: l' => insert_sorted x (sorted l')
  end.
End Sorted.

Definition to_config (t : SearchTermConfig + str) : SearchTermConfig :=
  match t with
  | inl cfg => cfg
  | inr s => {| cfg_term := s; min_price := None; max_price := None |}
  end.

Definition find_matching_listings `{PyRuntime}
    (source : CandidateSource) (search_terms : list (SearchTermConfig + str))
    (min_price0 max_price0 : option pyfloat) (extra_blacklist : option (list str))
    : list Listing :=
  let configs := map to_config search_terms in
  let all_hits :=
    collect_hits source min_price0 max_price0 extra_blacklist configs in
  let unique_hits := dedup_loop ∅ all_hits in
  sorted Qltb price unique_hits.

(** ** TermSpec parser *)

(** A returned value, or the message of the [ValueError] raised. *)
Inductive result (A : Type) :=
| Ok (a : A)
| ValueError (msg : str).
Arguments Ok {A} a.
Arguments ValueError {A} msg.

(** [[t.strip() for t in parts if t.strip()]] *)
Definition nonempty_stripped (parts : list str) : list str :=
  omap (λ t, match strip t with [] => None | s => Some s end) parts.

Definition is_empty (s : str) : bool :=
  match s with [] => true | _ => false end.

Section TermSpecParser.
Context `{PyRuntime}.

Definition parse_search_term_arg (arg : str)
    : result (list SearchTermConfig) :=
  let '(term_part, sep, price_part) := partition 58 arg in
  let term_raw := strip term_part in
  if is_empty term_raw then
    ValueError (py "Invalid search term '" ++ arg ++ py "': empty term.")
  else
  let term_variants := nonempty_stripped (split 124 term_raw) in
  match term_variants with
  | [] =>
      ValueError (py "Invalid search term '" ++ arg ++ py "': empty term.")
  | _ =>
  if negb sep then
    Ok (map (λ t, {| cfg_term := t; min_price := None; max_price := None |})
            term_variants)
  else
  let price_str := strip price_part in
  if is_empty price_str then
    ValueError (py "Invalid search term '" ++ arg
                ++ py "': missing price after ':'.")
  else
  if str_in (py "-") price_str then
    (* [price_str.split("-", 1)]: cut at the first dash *)
    let '(low_part, _, high_part) := partition 45 price_str in
    let low_str := strip low_part in
    let high_str := strip high_part in
    if is_empty low_str || is_empty high_str then
      ValueError (py "Invalid price range '" ++ price_str
                  ++ py "' in search term '" ++ arg ++ py "'.")
    else
      match py_float (replace_char 44 (py ".") low_str),
            py_float (replace_char 44 (py ".") high_str) with
      | Some local_min, Some local_max =>
          if float_lt local_max local_min then
            ValueError (py "Invalid price range '" ++ price_str
                        ++ py "' in search term '" ++ arg
                        ++ py "': max < min.")
          else
            Ok (map (λ t, {| cfg_term := t; min_price := Some local_min;
                             max_price := Some local_max |})
                    term_variants)
      | _, _ =>
          ValueError (py "Invalid price range '" ++ price_str
                      ++ py "' in search term '" ++ arg ++ py "'.")
      end
  else
    match py_float (replace_char 44 (py ".") price_str) with
    | Some local_min =>
        Ok (map (λ t, {| cfg_term := t; min_price := Some local_min;
                         max_price := None |})
                term_variants)
    | None =>
        ValueError (py "Invalid price '" ++ price_str
                    ++ py "' in search term '" ++ arg ++ py "'.")
    end
  end.
End TermSpecParser.

(** ** The state file and the effects of a run *)

(** What [STATE_PATH.read_text] meets: no file, a file that cannot be
    read or decoded as UTF-8, or a text. *)
Inductive file_state :=
| Missing
| Unreadable
| Content (raw : str).

Record Disk := {
  state_file : file_state;
  (** [STATE_PATH.parent.mkdir] raises *)
  mkdir_raises : bool;
  (** [Some st]: [STATE_PATH.write_text] raises and leaves [st] behind *)
  write_raises : option file_state
}.

Inductive Warning :=
| ReadFailed
| ParseFailed
| UnexpectedFormat
| WriteFailed.

Inductive Sink := Email | Ntfy.

Inductive Event :=
| EvWarn (w : Warning)
| EvMkdir
| EvWriteText (raw : str)
| EvNoNewListings
| EvPrinted (listings : list Listing)
| EvNotify (sink : Sink) (listings : list Listing).

(** A computation on the disk: its value ([None] when an exception
    escapes), the disk it leaves and the events it produced. *)
Definition IO (A : Type) : Type := Disk → option A * Disk * list Event.

Global Instance IO_ret : MRet IO := λ A a d, (Some a, d, []).

Global Instance IO_bind : MBind IO := λ A B k m d,
  let '(r, d1, log1) := m d in
  match r with
  | None => (None, d1, log1)
  | Some a => let '(r2, d2, log2) := k a d1 in (r2, d2, log1 ++ log2)
  end.

Definition emit (e : Event) : IO () := λ d, (Some (), d, [e]).

(** An exception that nothing catches. *)
Definition raise {A : Type} : IO A := λ d, (None, d, []).

Definition read_text : IO file_state := λ d, (Some (state_file d), d, []).

Definition mkdir : IO () := λ d,
  if mkdir_raises d then (None, d, []) else (Some (), d, [EvMkdir]).

(** [write_text] inside its [try]: whether the text was written. *)
Definition try_write_text (raw : str) : IO bool := λ d,
  match write_raises d with
  | None =>
      (Some true,
       {| state_file := Content raw; mkdir_raises := mkdir_raises d;
          write_raises := write_raises d |},
       [EvWriteText raw])
  | Some st =>
      (Some false,
       {| state_file := st; mkdir_raises := mkdir_raises d;
          write_raises := write_raises d |},
       [])
  end.

Definition value_of {A} (o : option A * Disk * list Event) : option A := o.1.1.
Definition disk_of {A} (o : option A * Disk * list Event) : Disk := o.1.2.
Definition log_of {A} (o : option A * Disk * list Event) : list Event := o.2.

(** [<] on strings: lexicographic on code points. *)
Fixpoint str_ltb (a b : str) : bool :=
  match a, b with
  | _, [] => false
  | [], _ :: _ => true
  | x :: a', y :: b' => (x <? y) || ((x =? y) && str_ltb a' b')
  end.

Section SeenState.
Context `{PyRuntime}.

(** [str(item)] *)
Definition py_str (item : json) : str :=
  match item with
  | JStr s => s
  | _ => value_repr item
  end.

Definition load_seen_urls : IO (gset str) :=
  st ← read_text;
  match st with
  | Missing => mret ∅
  | Unreadable => emit (EvWarn ReadFailed);; mret ∅
  | Content raw =>
      match json_loads raw with
      | JSONDecodeError => emit (EvWarn ParseFailed);; mret ∅
      | JsonRaises => raise
      | Decoded (JList data) => mret (list_to_set (py_str <$> data))
      | Decoded _ => emit (EvWarn UnexpectedFormat);; mret ∅
      end
  end.

Definition save_seen_urls (urls : gset str) : IO () :=
  mkdir;;
  written ← try_write_text
              (json_dumps (JList (JStr <$> sorted str_ltb id (elements urls))));
  if written : bool then mret () else emit (EvWarn WriteFailed).

Definition filter_new_listings (listings : list Listing)
    : IO (list Listing) :=
  seen ← load_seen_urls;
  let new_listings := filter (λ listing, url listing ∉ seen) listings in
  match new_listings with
  | [] => mret []
  | _ =>
      save_seen_urls (seen ∪ list_to_set (url <$> new_listings));;
      mret new_listings
  end.

(** The two sinks take the listings and catch their own failures. *)
Definition notify (sink : Sink) (listings : list Listing) : IO () :=
  match listings with
  | [] => mret ()
  | _ => emit (EvNotify sink listings)
  end.

Definition run_once
    (notify_mode enable_email enable_ntfy : bool)
    (source : CandidateSource) (search_terms : list (SearchTermConfig + str))
    (min_price0 max_price0 : option pyfloat) (extra_blacklist : option (list str))
    : IO () :=
  let all_hits :=
    find_matching_listings source search_terms min_price0 max_price0
                           extra_blacklist in
  if negb notify_mode then emit (EvPrinted all_hits)
  else
    new_hits ← filter_new_listings all_hits;
    match new_hits with
    | [] => emit EvNoNewListings
    | _ =>
        (if enable_email then notify Email new_hits else mret ());;
        (if enable_ntfy then notify Ntfy new_hits else mret ())
    end.
End SeenState.

(** ** Facts on [strip] for the law of the reference runtime *)

Definition lstrip_suffix (s : str) : lstrip s `suffix_of` s.
Proof.
  induction s as [|c s IH]; simpl; [reflexivity |].
  destruct (isspace c); [| reflexivity].
  by apply suffix_cons_r.
Qed.

Definition rstrip_prefix (s : str) : rstrip s `prefix_of` s.
Proof.
  unfold rstrip. pose proof (lstrip_suffix (reverse s)) as Hsuffix.
  apply suffix_prefix_reverse in Hsuffix.
  by rewrite reverse_involutive in Hsuffix.
Qed.

Definition strip_elem (s : str) (c : cp) : c ∈ strip s → c ∈ s.
Proof.
  unfold strip. intros Hin.
  destruct (rstrip_prefix (lstrip s)) as [k Hk].
  destruct (lstrip_suffix s) as [k' Hk'].
  rewrite Hk', Hk. set_solver.
Qed.

(** ** A reference runtime

    An executable instance of [PyRuntime], for the worked examples.  It
    agrees with CPython on the Basic Latin and Latin-1 repertoire for
    [str.lower] and on the ASCII digits for [\d]; [float] reads plain
    decimal literals with an optional sign, and [nan] (no exponent,
    underscore or [inf]); the codec reads JSON texts as [json.loads]
    does, short of its limits on nesting depth and integer size (every
    failure is a [JSONDecodeError]), and writes them as [json.dumps]
    does with its default separators and [ensure_ascii].  [str()] of a
    decoded value is CPython's for [null], the booleans and integer
    literals; elsewhere it is the JSON text. *)
Module Reference.

Definition lower_cp (c : cp) : cp :=
  if ((65 <=? c) && (c <=? 90))
     || ((192 <=? c) && (c <=? 222) && negb (c =? 215))
  then c + 32 else c.

Definition lower (s : str) : str := map lower_cp s.

Definition is_ascii_digit (c : cp) : bool := (48 <=? c) && (c <=? 57).

Fixpoint digits_value (acc : N) (s : str) : N :=
  match s with
  | [] => acc
  | c :: s' => digits_value (acc * 10 + (c - 48)) s'
  end.

(** The word "nan", in lower case. *)
Definition is_nan_word (w : str) : bool :=
  match w with
  | [a; b; c] => (a =? 110) && (b =? 97) && (c =? 110)
  | _ => false
  end.

(** What follows the optional sign of a literal, and whether the sign
    is a minus. *)
Definition unsigned (s : str) : bool * str :=
  match s with
  | c :: r =>
      if c =? 45 then (true, r) else if c =? 43 then (false, r) else (false, s)
  | [] => (false, s)
  end.

Definition decimal_literal (s : str) : option pyfloat :=
  let s := strip s in
  let '(negative, body) := unsigned s in
  if is_nan_word (lower body) then Some NaN
  else
    let '(int_part, _, frac_part) := partition 46 body in
    let ds := int_part ++ frac_part in
    if forallb is_ascii_digit ds && negb (is_empty ds) then
      let m := Z.of_N (digits_value 0 ds) in
      Some (Fin (Qmake (if negative then - m else m)%Z
                       (Z.to_pos (10 ^ Z.of_nat (length frac_part)))))
    else None.

Definition decimal_literal_digits (s : str) :
  Forall (λ c, is_ascii_digit c = true ∨ c = 46) s →
  decimal_literal s ≠ Some NaN.
Proof.
  intros Hall Hnan. rewrite list.Forall_forall in Hall.
  unfold decimal_literal in Hnan.
  assert (Hbody : ∀ c, c ∈ (unsigned (strip s)).2 →
                       is_ascii_digit c = true ∨ c = 46).
  { intros c Hc. apply Hall, strip_elem. unfold unsigned in Hc.
    destruct (strip s) as [|x r]; [exact Hc |].
    destruct (x =? 45); [apply elem_of_cons; by right |].
    destruct (x =? 43); [apply elem_of_cons; by right | exact Hc]. }
  destruct (unsigned (strip s)) as [negative body]. simpl in Hbody.
  destruct (is_nan_word (lower body)) eqn:Hword.
  - destruct body as [|a [|b [|c [|? ?]]]]; try discriminate.
    simpl in Hword. apply andb_true_iff in Hword as [Hword _].
    apply andb_true_iff in Hword as [Ha _]. apply N.eqb_eq in Ha.
    unfold lower_cp, is_ascii_digit in *.
    destruct (Hbody a) as [Hdigit | ->]; [apply elem_of_cons; by left | |].
    + apply andb_true_iff in Hdigit as [Hlow Hhigh].
      apply N.leb_le in Hlow, Hhigh.
      destruct (_ || _) eqn:Hupper in Ha; [| lia].
      repeat (apply orb_true_iff in Hupper as [Hupper | Hupper]
              || apply andb_true_iff in Hupper as [Hupper ?]);
        apply N.leb_le in Hupper; lia.
    + vm_compute in Ha. discriminate.
  - destruct (partition 46 body) as [[int_part found] frac_part].
    destruct (_ && _); discriminate.
Qed.

(** *** Reading JSON *)

Fixpoint skip_ws (s : str) : str :=
  match s with
  | c :: s' =>
      if (c =? 32) || (c =? 9) || (c =? 10) || (c =? 13) then skip_ws s'
      else s
  | [] => []
  end.

Definition hex_val (c : cp) : option N :=
  if (48 <=? c) && (c <=? 57) then Some (c - 48)
  else if (97 <=? c) && (c <=? 102) then Some (c - 87)
  else if (65 <=? c) && (c <=? 70) then Some (c - 55)
  else None.

Definition hex4 (s : str) : option (N * str) :=
  match s with
  | a :: b :: c :: d :: rest =>
      match hex_val a, hex_val b, hex_val c, hex_val d with
      | Some a, Some b, Some c, Some d =>
          Some (((a * 16 + b) * 16 + c) * 16 + d, rest)
      | _, _, _, _ => None
      end
  | _ => None
  end.

Definition simple_escape (e : cp) : option cp :=
  if e =? 34 then Some 34 else if e =? 92 then Some 92
  else if e =? 47 then Some 47 else if e =? 98 then Some 8
  else if e =? 102 then Some 12 else if e =? 110 then Some 10
  else if e =? 114 then Some 13 else if e =? 116 then Some 9
  else None.

(** A [\uXXXX] escape, after the [u]: a high surrogate followed by an
    escaped low surrogate is one code point. *)
Definition unicode_escape (s : str) : option (cp * str) :=
  match hex4 s with
  | None => None
  | Some (u, rest) =>
      if (55296 <=? u) && (u <=? 56319) then
        match rest with
        | 92 :: 117 :: rest' =>
            match hex4 rest' with
            | Some (lo, rest'') =>
                if (56320 <=? lo) && (lo <=? 57343) then
                  Some (65536 + (u - 55296) * 1024 + (lo - 56320), rest'')
                else Some (u, rest)
            | None => Some (u, rest)
            end
        | _ => Some (u, rest)
        end
      else Some (u, rest)
  end.

(** The body of a string, after its opening quote. *)
Fixpoint scan_string (fuel : nat) (s : str) : option (str * str) :=
  match fuel, s with
  | S fuel', c :: s' =>
      if c =? 34 then Some ([], s')
      else if c <? 32 then None
      else if c =? 92 then
        match s' with
        | e :: s'' =>
            match (if e =? 117 then unicode_escape s''
                   else match simple_escape e with
                        | Some x => Some (x, s'')
                        | None => None
                        end) with
            | Some (x, rest) =>
                match scan_string fuel' rest with
                | Some (body, rest') => Some (x :: body, rest')
                | None => None
                end
            | None => None
            end
        | [] => None
        end
      else
        match scan_string fuel' s' with
        | Some (body, rest) => Some (c :: body, rest)
        | None => None
        end
  | _, _ => None
  end.

Fixpoint take_digits (s : str) : str * str :=
  match s with
  | c :: s' =>
      if is_ascii_digit c then
        let '(ds, rest) := take_digits s' in (c :: ds, rest)
      else ([], s)
  | [] => ([], [])
  end.

(** A number at the head of [s]: an optional minus, an integer part
    without leading zero, an optional fraction, an optional exponent. *)
Definition scan_number (s : str) : option (str * str) :=
  let '(sign, s1) :=
    match s with 45 :: r => ([45], r) | _ => ([], s) end in
  match s1 with
  | d :: r =>
      if is_ascii_digit d then
        let '(int_part, s2) :=
          if d =? 48 then ([48], r) else take_digits s1 in
        let '(frac, s3) :=
          match s2 with
          | 46 :: r2 =>
              match take_digits r2 with
              | ([], _) => ([], s2)
              | (ds, r3) => (46 :: ds, r3)
              end
          | _ => ([], s2)
          end in
        let '(expo, s4) :=
          match s3 with
          | e :: r3 =>
              if (e =? 101) || (e =? 69) then
                let '(esign, r4) :=
                  match r3 with
                  | 43 :: r' => ([43], r')
                  | 45 :: r' => ([45], r')
                  | _ => ([], r3)
                  end in
                match take_digits r4 with
                | ([], _) => ([], s3)
                | (ds, r5) => (e :: esign ++ ds, r5)
                end
              else ([], s3)
          | [] => ([], s3)
          end in
        Some (sign ++ int_part ++ frac ++ expo, s4)
      else None
  | [] => None
  end.

Definition expect (word : str) (v : json) (s : str) : option (json * str) :=
  if startswith word s then Some (v, drop (length word) s) else None.

Section Containers.
Variable parse_value : str → option (json * str).

(** The values of an array, after its first value's position. *)
Fixpoint parse_items (fuel : nat) (s : str) : option (list json * str) :=
  match fuel with
  | O => None
  | S fuel' =>
      match parse_value s with
      | None => None
      | Some (v, r) =>
          match skip_ws r with
          | 44 :: r' =>
              match parse_items fuel' r' with
              | Some (vs, r'') => Some (v :: vs, r'')
              | None => None
              end
          | 93 :: r' => Some ([v], r')
          | _ => None
          end
      end
  end.

(** The members of an object, at the position of a key. *)
Fixpoint parse_members (fuel : nat) (s : str)
    : option (list (str * json) * str) :=
  match fuel with
  | O => None
  | S fuel' =>
      match skip_ws s with
      | 34 :: r =>
          match scan_string (length r) r with
          | None => None
          | Some (k, r1) =>
              match skip_ws r1 with
              | 58 :: r2 =>
                  match parse_value r2 with
                  | None => None
                  | Some (v, r3) =>
                      match skip_ws r3 with
                      | 44 :: r4 =>
                          match parse_members fuel' r4 with
                          | Some (ms, r5) => Some ((k, v) :: ms, r5)
                          | None => None
                          end
                      | 125 :: r4 => Some ([(k, v)], r4)
                      | _ => None
                      end
                  end
              | _ => None
              end
          end
      | _ => None
      end
  end.
End Containers.

Fixpoint parse_value (fuel : nat) (s : str) : option (json * str) :=
  match fuel with
  | O => None
  | S fuel' =>
      match skip_ws s with
      | [] => None
      | (c :: r) as s0 =>
          if c =? 34 then
            match scan_string (length r) r with
            | Some (body, rest) => Some (JStr body, rest)
            | None => None
            end
          else if c =? 91 then
            match skip_ws r with
            | 93 :: r' => Some (JList [], r')
            | _ =>
                match parse_items (parse_value fuel') (length r) r with
                | Some (vs, rest) => Some (JList vs, rest)
                | None => None
                end
            end
          else if c =? 123 then
            match skip_ws r with
            | 125 :: r' => Some (JObj [], r')
            | _ =>
                match parse_members (parse_value fuel') (length r) r with
                | Some (ms, rest) => Some (JObj ms, rest)
                | None => None
                end
            end
          else if c =? 110 then expect (py "null") JNull s0
          else if c =? 116 then expect (py "true") (JBool true) s0
          else if c =? 102 then expect (py "false") (JBool false) s0
          else if c =? 78 then expect (py "NaN") (JNum (py "NaN")) s0
          else if c =? 73 then
            expect (py "Infinity") (JNum (py "Infinity")) s0
          else if startswith (py "-Infinity") s0 then
            expect (py "-Infinity") (JNum (py "-Infinity")) s0
          else
            match scan_number s0 with
            | Some (lit, rest) => Some (JNum lit, rest)
            | None => None
            end
      end
  end.

Definition loads (s : str) : option json :=
  match parse_value (S (length s)) s with
  | Some (v, rest) => if is_empty (skip_ws rest) then Some v else None
  | None => None
  end.

Definition loads_result (s : str) : json_result :=
  match loads s with
  | Some v => Decoded v
  | None => JSONDecodeError
  end.

(** *** Writing JSON *)

Definition hex_digit (n : N) : cp := if n <? 10 then 48 + n else 87 + n.

Definition u_escape (u : N) : str :=
  [92; 117; hex_digit (u / 4096); hex_digit ((u / 256) mod 16);
   hex_digit ((u / 16) mod 16); hex_digit (u mod 16)].

Definition escape_char (c : cp) : str :=
  if c =? 34 then [92; 34] else if c =? 92 then [92; 92]
  else if c =? 10 then [92; 110] else if c =? 13 then [92; 114]
  else if c =? 9 then [92; 116] else if c =? 8 then [92; 98]
  else if c =? 12 then [92; 102]
  else if (32 <=? c) && (c <=? 126) then [c]
  else if c <? 65536 then u_escape c
  else u_escape (55296 + (c - 65536) / 1024)
       ++ u_escape (56320 + (c - 65536) mod 1024).

Definition dump_string (s : str) : str :=
  [34] ++ flat_map escape_char s ++ [34].

Fixpoint join (sep : str) (parts : list str) : str :=
  match parts with
  | [] => []
  | [x] => x
  | x :: rest => x ++ sep ++ join sep rest
  end.

Fixpoint dumps (v : json) : str :=
  match v with
  | JNull => py "null"
  | JBool true => py "true"
  | JBool false => py "false"
  | JNum lit => lit
  | JStr s => dump_string s
  | JList items => py "[" ++ join (py ", ") (map dumps items) ++ py "]"
  | JObj members =>
      py "{"
      ++ join (py ", ")
           (map (λ kv, let '(k, x) := kv in dump_string k ++ py ": " ++ dumps x)
                members)
      ++ py "}"
  end.

Definition repr (v : json) : str :=
  match v with
  | JNull => py "None"
  | JBool true => py "True"
  | JBool false => py "False"
  | _ => dumps v
  end.
End Reference.

Definition reference_runtime : PyRuntime := {|
  str_lower := Reference.lower;
  re_digit := Reference.is_ascii_digit;
  py_float := Reference.decimal_literal;
  json_loads := Reference.loads_result;
  json_dumps := Reference.dumps;
  value_repr := Reference.repr;
  py_float_digits := Reference.decimal_literal_digits
|}.


(** ** Worked example data *)

(** The end-to-end example: "laptop:100-300" over ads priced 50, 150
    and 9999. *)
Definition laptop_ad (price_text : string) (path : string) : RawAd :=
  {| ad_title := py "Laptop"; ad_href := py path;
     ad_price_text := py price_text; ad_location := py "Berlin" |}.

Definition laptop_source : CandidateSource :=
  λ _, Some [ laptop_ad "50 €" "/s-anzeige/1";
              laptop_ad "150 €" "/s-anzeige/2";
              laptop_ad "9999 €" "/s-anzeige/3" ].

Definition laptop_listing (p : Z) (path : string) : Listing :=
  {| title := py "Laptop"; price := (p # 1)%Q; location := py "Berlin";
     url := py "https://www.kleinanzeigen.de" ++ py path; term := py "laptop" |}.

Definition laptop_cfg : SearchTermConfig :=
  {| cfg_term := py "laptop"; min_price := Some (Fin (100 # 1));
     max_price := Some (Fin (300 # 1)) |}.


Global Instance Qeq_decision : RelDecision Qeq := Qeq_dec.

Definition missing_disk : Disk :=
  {| state_file := Missing; mkdir_raises := false; write_raises := None |}.

Definition two_urls_disk : Disk :=
  {| state_file :=
       Content (Reference.dumps
                  (JList [JStr (py "https://a/1"); JStr (py "https://b/2")]));
     mkdir_raises := false; write_raises := None |}.

(** The text [save_seen_urls] writes for a set. *)
Definition saved_text `{PyRuntime} (urls : gset str) : str :=
  json_dumps (JList (JStr <$> sorted str_ltb id (elements urls))).

Definition seen_listing : Listing :=
  {| title := py "Laptop"; price := (150 # 1)%Q; location := py "Berlin";
     url := py "https://a/1"; term := py "laptop" |}.

(** ** Request URL *)

Definition BASE_URL : str := py "https://www.kleinanzeigen.de/s-".

(** The URL [fetch_listings_for_term] requests for a term. *)
Definition search_url `{PyRuntime} (term : str) : str :=
  let slug := replace_char 32 (py "-") (str_lower term) in
  BASE_URL ++ slug ++ py "/k0".

(** ** Push notification requests *)

(** [value.encode("ascii", "replace").decode("ascii")] *)
Definition sanitize_header (value : str) : str :=
  map (λ c, if c <? 128 then c else 63) value.

Section Ntfy.
(** [f"{x:.0f}"] on a price. *)
Variable format_0f : Q → str.

(** The [Title] header [notify_ntfy] sends for a listing. *)
Definition ntfy_title (listing : Listing) : str :=
  let title := format_0f (price listing) ++ py " € " ++ title listing in
  let title :=
    if (80 <? length title)%nat then take 77 title ++ py "..." else title in
  sanitize_header title.

(** The endpoint: [DEAL_NOTIFIER_NTFY_URL] when set and not empty,
    else the topic appended to the public server, else none. *)
Definition ntfy_endpoint (env_url env_topic : option str) : option str :=
  match env_url with
  | Some ((_ :: _) as u) => Some u
  | _ =>
      match env_topic with
      | Some ((_ :: _) as topic) => Some (py "https://ntfy.sh/" ++ topic)
      | _ => None
      end
  end.

(** The requests [notify_ntfy] posts: endpoint, [Title] header, body.
    A failing post is caught and the loop goes on. *)
Definition notify_ntfy_requests
    (env_url env_topic : option str) (listings : list Listing)
    : list (str * str * str) :=
  match listings with
  | [] => []
  | _ =>
      match ntfy_endpoint env_url env_topic with
      | None => []
      | Some endpoint =>
          map (λ listing, (endpoint, ntfy_title listing, url listing)) listings
      end
  end.
End Ntfy.

(** ** Command line *)

(** The parsed command line. *)
Record Args := {
  arg_search_terms : list str;
  arg_notify : bool;
  arg_min_price : option pyfloat;
  arg_max_price : option pyfloat;
  arg_no_email : bool;
  arg_no_ntfy : bool;
  arg_blacklist : option (list str);
  arg_clear_seen : bool
}.

Inductive ClearOutcome :=
| NothingToClear
| Cleared
| ClearFailed.

(** The [--clear-seen] step: [unlink_raises] tells whether
    [STATE_PATH.unlink] raises. *)
Definition clear_seen (unlink_raises : bool) (d : Disk) : Disk * ClearOutcome :=
  match state_file d with
  | Missing => (d, NothingToClear)
  | _ =>
      if unlink_raises then (d, ClearFailed)
      else ({| state_file := Missing; mkdir_raises := mkdir_raises d;
               write_raises := write_raises d |}, Cleared)
  end.

(** What [main] does: it stops with a usage error, or clears the cache
    when asked and runs once. *)
Inductive MainResult :=
| UsageError (msg : str)
| Ran (cleared : option ClearOutcome) (outcome : option () * Disk * list Event).

Section Main.
Context `{PyRuntime}.

(** The loop over the positional arguments, inside its [try]. *)
Fixpoint parse_search_terms (args : list str) : result (list SearchTermConfig) :=
  match args with
  | [] => Ok []
  | arg :: rest =>
      match parse_search_term_arg arg with
      | ValueError msg => ValueError msg
      | Ok cfgs =>
          match parse_search_terms rest with
          | ValueError msg => ValueError msg
          | Ok more => Ok (cfgs ++ more)
          end
      end
  end.

Definition main
    (unlink_raises : bool) (source : CandidateSource) (args : Args) (d : Disk)
    : MainResult :=
  match arg_search_terms args with
  | [] => UsageError (py "at least one search term is required")
  | _ =>
      match parse_search_terms (arg_search_terms args) with
      | ValueError msg => UsageError msg
      | Ok search_terms_cfg =>
          let '(d1, cleared) :=
            if arg_clear_seen args then
              let '(d1, c) := clear_seen unlink_raises d in (d1, Some c)
            else (d, None) in
          Ran cleared
              (run_once (arg_notify args) (negb (arg_no_email args))
                        (negb (arg_no_ntfy args)) source
                        (inl <$> search_terms_cfg)
                        (arg_min_price args) (arg_max_price args)
                        (arg_blacklist args) d1)
      end
  end.
End Main.

(** A disk whose state directory cannot be made, and one on which the
    write of the state file fails and leaves no file. *)
Definition readonly_disk : Disk :=
  {| state_file := Missing; mkdir_raises := true; write_raises := None |}.

Definition full_disk : Disk :=
  {| state_file := Missing; mkdir_raises := false; write_raises := Some Missing |}.

(** A source that answers for "laptop" only; other requests fail. *)
Definition laptop_only_source : CandidateSource :=
  λ t, if startswith (py "laptop") t then laptop_source t else None.

(** Two command lines: one whose second argument has a maximum below
    its minimum, and one that clears the cache and notifies. *)
Definition bad_args : Args :=
  {| arg_search_terms := [py "laptop:100-300"; py "term:20-10"; py "a| |b"];
     arg_notify := true; arg_min_price := None; arg_max_price := None;
     arg_no_email := false; arg_no_ntfy := false; arg_blacklist := None;
     arg_clear_seen := false |}.

Definition laptop_args : Args :=
  {| arg_search_terms := [py "laptop:100-300"];
     arg_notify := true; arg_min_price := None; arg_max_price := None;
     arg_no_email := false; arg_no_ntfy := false; arg_blacklist := None;
     arg_clear_seen := true |}.


(** * Properties *)

(** ** Substring test *)

Lemma startswith_prefix (p s : str) :
  startswith p s = true ↔ ∃ post, s = p ++ post.
Proof.
  revert s. induction p as [|a p IH]; intros s; simpl.
  - split; [eauto | done].
  - destruct s as [|b s].
    + split; [done | intros [post Hpost]; discriminate].
    + rewrite andb_true_iff, N.eqb_eq, IH. split.
      * intros [-> [post ->]]. eauto.
      * intros [post Hpost]. injection Hpost as -> ->. eauto.
Qed.

Lemma str_in_infix (needle hay : str) :
  str_in needle hay = true ↔ ∃ pre post, hay = pre ++ needle ++ post.
Proof.
  induction hay as [|c hay IH]; simpl.
  - rewrite orb_false_r, startswith_prefix. split.
    + intros [post ->]. by exists [], post.
    + intros [pre [post Heq]]. destruct pre; [by exists post | discriminate].
  - rewrite orb_true_iff, startswith_prefix, IH. split.
    + intros [[post ->] | [pre [post ->]]].
      * by exists [], post.
      * by exists (c :: pre), post.
    + intros [pre [post Heq]]. destruct pre as [|c' pre]; simpl in Heq.
      * left. eauto.
      * right. injection Heq as -> ->. eauto.
Qed.

(** ** Title filter *)

Section TitleFilterFacts.
Context `{PyRuntime}.

Lemma blacklist_loop_true (entries : list str) (t term_lower : str) :
  blacklist_loop entries t term_lower = true ↔
  ∃ bad, bad ∈ entries ∧ str_in bad term_lower = false ∧ str_in bad t = true.
Proof.
  induction entries as [|e entries IH]; simpl.
  - split; [done | intros [bad [Hin _]]; by apply elem_of_nil in Hin].
  - destruct (str_in e term_lower) eqn:Hterm.
    + rewrite IH. split.
      * intros [bad [Hin Hbad]]. exists bad. by rewrite elem_of_cons; auto.
      * intros [bad [[-> | Hin]%elem_of_cons [Hnot Hhit]]]; [congruence | eauto].
    + destruct (str_in e t) eqn:Htitle.
      * split; [intros _ | done]. exists e. by rewrite elem_of_cons; auto.
      * rewrite IH. split.
        -- intros [bad [Hin Hbad]]. exists bad. by rewrite elem_of_cons; auto.
        -- intros [bad [[-> | Hin]%elem_of_cons [Hnot Hhit]]]; [congruence | eauto].
Qed.

Lemma gaming_rule_true (t term_lower : str) :
  gaming_rule t term_lower = true ↔
  str_in (py "gaming") t = true
  ∧ (str_in (py "pc") t = true ∨ str_in (py "setup") t = true)
  ∧ str_in (py "gaming") term_lower = false
  ∧ str_in (py "pc") term_lower = false
  ∧ str_in (py "setup") term_lower = false.
Proof.
  unfold gaming_rule.
  rewrite !andb_true_iff, orb_true_iff, !negb_true_iff. tauto.
Qed.
End TitleFilterFacts.

(** C1.  The title filter excludes a candidate exactly when the gaming-PC
    rule fires, which requires that the lowercased search term contains
    none of "gaming", "pc" and "setup", or when some blacklist entry, a
    default one or a lowercased user-supplied one, occurs in the lowercased
    title and does not occur in the lowercased search term.  Hence an
    entry that is a substring of the term never excludes a candidate of
    that term, and the gaming-PC rule never fires for a term that contains
    one of its three words. *)
Theorem title_filter_exemption :
  ∀ (R : PyRuntime) (title search_term : str) (extra : option (list str)),
    let t := str_lower title in
    let term_lower := str_lower search_term in
    is_blacklisted_title title search_term extra = true ↔
      (str_in (py "gaming") t = true
       ∧ (str_in (py "pc") t = true ∨ str_in (py "setup") t = true)
       ∧ str_in (py "gaming") term_lower = false
       ∧ str_in (py "pc") term_lower = false
       ∧ str_in (py "setup") term_lower = false)
      ∨ (∃ bad,
           (bad ∈ DEFAULT_TITLE_BLACKLIST
            ∨ ∃ entries e, extra = Some entries ∧ e ∈ entries ∧ bad = str_lower e)
           ∧ str_in bad term_lower = false
           ∧ str_in bad t = true).
Proof.
  intros R title search_term extra t term_lower.
  unfold is_blacklisted_title. fold t term_lower.
  rewrite <- gaming_rule_true.
  destruct (gaming_rule t term_lower); [by split; auto |].
  destruct (blacklist_loop DEFAULT_TITLE_BLACKLIST t term_lower) eqn:Hdefault.
  - split; [intros _ | done]. right.
    apply blacklist_loop_true in Hdefault as [bad [Hin Hbad]]. eauto.
  - assert (Hnone : ∀ bad, bad ∈ DEFAULT_TITLE_BLACKLIST →
              str_in bad term_lower = false → str_in bad t = true → False).
    { intros bad Hin Hnot Hhit.
      assert (blacklist_loop DEFAULT_TITLE_BLACKLIST t term_lower = true)
        by (apply blacklist_loop_true; eauto).
      congruence. }
    destruct extra as [[|e0 entries]|].
    + split; [done |].
      intros [? | [bad [[Hin | [es [e [Hes [He _]]]]] [Hnot Hhit]]]];
        [done | by destruct (Hnone bad) |].
      injection Hes as <-. by apply elem_of_nil in He.
    + rewrite blacklist_loop_true. split.
      * intros [bad [[e [-> He]]%list_elem_of_fmap Hbad]]. right.
        exists (str_lower e). split; [right; eauto | done].
      * intros [? | [bad [[Hin | [es [e [Hes [He ->]]]]] [Hnot Hhit]]]];
          [done | by destruct (Hnone bad) |].
        injection Hes as <-. exists (str_lower e).
        split; [by apply list_elem_of_fmap_2 | done].
    + split; [done |].
      intros [? | [bad [[Hin | [es [e [Hes _]]]] [Hnot Hhit]]]];
        [done | by destruct (Hnone bad) | done].
Qed.

(** C3.  On the reference runtime the filter excludes the title
    "gaming pc for sale" for the term "gaming pc": the gaming-PC rule and
    the entry "gaming pc" are exempt, but the default entry "pc " occurs
    in the title and, for lack of a trailing space, not in the term.  It
    excludes "gaming pc bundle" for the term "graphics card". *)
Theorem title_filter_gaming_pc_examples :
  gaming_rule (py "gaming pc for sale") (py "gaming pc") = false
  ∧ str_in (py "pc ") (py "gaming pc") = false
  ∧ str_in (py "pc ") (py "gaming pc for sale") = true
  ∧ @is_blacklisted_title reference_runtime
      (py "gaming pc for sale") (py "gaming pc") None = true
  ∧ @is_blacklisted_title reference_runtime
      (py "gaming pc bundle") (py "graphics card") None = true.
Proof. repeat split; vm_compute; reflexivity. Qed.

(** The default entries are in lower case already, so that testing them
    against the lowercased term is the case-insensitive test. *)
Lemma default_blacklist_is_lowercase :
  Reference.lower <$> DEFAULT_TITLE_BLACKLIST = DEFAULT_TITLE_BLACKLIST.
Proof. vm_compute. reflexivity. Qed.

(** ** Price normalizer *)

(** C2.  On the reference runtime [parse_price] gives 123.45 for
    "123,45 €" and no price for "zu verschenken" and for the empty text.
    For "1.234,00 €" the pattern matches "1.23" only, the dot is then
    stripped and the result is 123, not 1234. *)
Theorem parse_price_examples :
  @parse_price reference_runtime (py "123,45 €") = Some (12345 # 100)%Q
  ∧ @re_search_price reference_runtime (py "1.234,00 €") = Some (py "1.23")
  ∧ @parse_price reference_runtime (py "1.234,00 €") = Some (123 # 1)%Q
  ∧ @parse_price reference_runtime (py "zu verschenken") = None
  ∧ @parse_price reference_runtime (py "") = None.
Proof. repeat split; vm_compute; reflexivity. Qed.

(** ** TermSpec parser *)

(** C6.  On the reference runtime "a|b:10-20" parses to the two terms
    "a" and "b", both with bounds 10 and 20; "term:15" to one term with
    minimum 15 and no maximum; "term:20-10" raises the max < min error. *)
Theorem parse_search_term_arg_examples :
  @parse_search_term_arg reference_runtime (py "a|b:10-20")
  = Ok [ {| cfg_term := py "a"; min_price := Some (Fin (10 # 1));
            max_price := Some (Fin (20 # 1)) |};
         {| cfg_term := py "b"; min_price := Some (Fin (10 # 1));
            max_price := Some (Fin (20 # 1)) |} ]
  ∧ @parse_search_term_arg reference_runtime (py "term:15")
    = Ok [ {| cfg_term := py "term"; min_price := Some (Fin (15 # 1));
              max_price := None |} ]
  ∧ @parse_search_term_arg reference_runtime (py "term:20-10")
    = ValueError
        (py "Invalid price range '20-10' in search term 'term:20-10': max < min.").
Proof. repeat split; vm_compute; reflexivity. Qed.

Lemma Qltb_lt (x y : Q) : Qltb x y = true ↔ (x < y)%Q.
Proof. unfold Qltb, Qlt. apply Z.ltb_lt. Qed.

Lemma Qltb_ge (x y : Q) : Qltb x y = false ↔ (y <= x)%Q.
Proof. unfold Qltb, Qle. rewrite Z.ltb_ge. done. Qed.

Lemma float_lt_fin (x y : Q) : float_lt (Fin x) (Fin y) = true ↔ (x < y)%Q.
Proof. apply Qltb_lt. Qed.

Lemma float_lt_fin_ge (x y : Q) : float_lt (Fin x) (Fin y) = false ↔ (y <= x)%Q.
Proof. apply Qltb_ge. Qed.

(** C7 (as the code has it).  With the argument cut at its first colon:
    when no pipe-separated piece of the trimmed term part is non-empty
    after trimming (the term part itself may be empty) the parse fails
    with the empty-term error; otherwise the empty pieces are dropped and
    the others are the terms.  With a colon, an empty price part fails
    with the missing-price error; a single bound that [float] rejects
    fails with the invalid-price error; in a range, an empty bound or a
    bound that [float] rejects fails with the invalid-range error, and a
    maximum below the minimum with the max < min error.  Every other
    argument is accepted, with the bounds [float] returned. *)
Theorem parse_search_term_arg_errors :
  ∀ (R : PyRuntime) (arg term_part price_part : str) (sep : bool),
    partition 58 arg = (term_part, sep, price_part) →
    let variants := nonempty_stripped (split 124 (strip term_part)) in
    let price_str := strip price_part in
    let decimal s := py_float (replace_char 44 (py ".") s) in
    let configs lo hi :=
      map (λ t, {| cfg_term := t; min_price := lo; max_price := hi |}) variants in
    (variants = [] →
       parse_search_term_arg arg
       = ValueError (py "Invalid search term '" ++ arg ++ py "': empty term."))
    ∧ (variants ≠ [] → sep = false →
       parse_search_term_arg arg = Ok (configs None None))
    ∧ (variants ≠ [] → sep = true → price_str = [] →
       parse_search_term_arg arg
       = ValueError (py "Invalid search term '" ++ arg
                     ++ py "': missing price after ':'."))
    ∧ (variants ≠ [] → sep = true → price_str ≠ [] →
       str_in (py "-") price_str = false →
       (decimal price_str = None →
        parse_search_term_arg arg
        = ValueError (py "Invalid price '" ++ price_str
                      ++ py "' in search term '" ++ arg ++ py "'."))
       ∧ (∀ local_min, decimal price_str = Some local_min →
          parse_search_term_arg arg = Ok (configs (Some local_min) None)))
    ∧ (∀ (low_part high_part : str) (found : bool),
         variants ≠ [] → sep = true → price_str ≠ [] →
         str_in (py "-") price_str = true →
         partition 45 price_str = (low_part, found, high_part) →
         ((strip low_part = [] ∨ strip high_part = []
           ∨ decimal (strip low_part) = None
           ∨ decimal (strip high_part) = None) →
          parse_search_term_arg arg
          = ValueError (py "Invalid price range '" ++ price_str
                        ++ py "' in search term '" ++ arg ++ py "'."))
         ∧ (∀ local_min local_max : pyfloat,
              strip low_part ≠ [] → strip high_part ≠ [] →
              decimal (strip low_part) = Some local_min →
              decimal (strip high_part) = Some local_max →
              (float_lt local_max local_min = true →
               parse_search_term_arg arg
               = ValueError (py "Invalid price range '" ++ price_str
                             ++ py "' in search term '" ++ arg
                             ++ py "': max < min."))
              ∧ (float_lt local_max local_min = false →
                 parse_search_term_arg arg
                 = Ok (configs (Some local_min) (Some local_max))))).
Proof.
  intros R arg term_part price_part sep Hcut variants price_str decimal configs.
  subst variants price_str decimal configs.
  unfold parse_search_term_arg. rewrite Hcut.
  assert (Hblank : nonempty_stripped (split 124 []) = []) by reflexivity.
  destruct (strip term_part) as [|c term_raw] eqn:Hraw.
  { cbn [is_empty]. rewrite Hblank.
    split; [reflexivity |]. repeat split; intros; congruence. }
  cbn [is_empty].
  destruct (nonempty_stripped (split 124 (c :: term_raw))) as [|v vs] eqn:Hvariants.
  { split; [reflexivity |]. repeat split; intros; congruence. }
  split; [intros; congruence |]. split.
  { intros _ ->. reflexivity. }
  split.
  { intros _ -> Hprice. cbn [negb]. rewrite Hprice. reflexivity. }
  split.
  - intros _ -> Hprice Hdash. cbn [negb].
    destruct (strip price_part) as [|p ps] eqn:Hps; [congruence |].
    cbn [is_empty]. rewrite Hdash.
    split; [intros -> | intros local_min ->]; reflexivity.
  - intros low_part high_part found _ -> Hprice Hdash Hcut2.
    cbn [negb].
    destruct (strip price_part) as [|p ps] eqn:Hps; [congruence |].
    cbn [is_empty]. rewrite Hdash, Hcut2. split.
    + intros Hbad.
      destruct (strip low_part) as [|l ls] eqn:Hl; [reflexivity |].
      destruct (strip high_part) as [|h hs] eqn:Hh; [reflexivity |].
      cbn [is_empty orb].
      destruct (py_float (replace_char 44 (py ".") (l :: ls))); [| reflexivity].
      destruct (py_float (replace_char 44 (py ".") (h :: hs))); [| reflexivity].
      exfalso. destruct Hbad as [? | [? | [? | ?]]]; congruence.
    + intros local_min local_max Hlow Hhigh.
      destruct (strip low_part) as [|l ls] eqn:Hl; [congruence |].
      destruct (strip high_part) as [|h hs] eqn:Hh; [congruence |].
      cbn [is_empty orb]. intros -> ->.
      split; intros ->; reflexivity.
Qed.

(** The witness: " | :5" has only empty terms. *)
Lemma parse_search_term_arg_errors_witness :
  @parse_search_term_arg reference_runtime (py " | :5")
  = ValueError (py "Invalid search term ' | :5': empty term.").
Proof.
  apply (parse_search_term_arg_errors reference_runtime
           (py " | :5") (py " | ") (py "5") true); reflexivity.
Defined.

(** C7 (as stated) fails: "a| |b" has an empty variant and is accepted;
    the empty variant is dropped. *)
Lemma empty_variant_is_dropped :
  split 124 (py "a| |b") = [py "a"; py " "; py "b"]
  ∧ strip (py " ") = []
  ∧ @parse_search_term_arg reference_runtime (py "a| |b")
    = Ok [ {| cfg_term := py "a"; min_price := None; max_price := None |};
           {| cfg_term := py "b"; min_price := None; max_price := None |} ].
Proof. repeat split; vm_compute; reflexivity. Qed.

(** ** Price-range filter *)

Lemma price_filter_elem
    (effective_min effective_max : option pyfloat) (listings : list Listing)
    (listing : Listing) :
  listing ∈ price_filter effective_min effective_max listings ↔
  listing ∈ listings
  ∧ (∀ m, effective_min = Some m → float_lt (Fin (price listing)) m = false)
  ∧ (∀ m, effective_max = Some m → float_lt m (Fin (price listing)) = false).
Proof.
  induction listings as [|x listings IH]; cbn [price_filter].
  - rewrite elem_of_nil. tauto.
  - assert (Hlow : (∀ m, effective_min = Some m
                         → float_lt (Fin (price x)) m = false) ↔
             match effective_min with
             | Some m => float_lt (Fin (price x)) m
             | None => false
             end = false).
    { destruct effective_min as [m|].
      - split; [eauto | intros ? ? [= <-]; done].
      - split; [done | intros _ ? [=]]. }
    assert (Hhigh : (∀ m, effective_max = Some m
                          → float_lt m (Fin (price x)) = false) ↔
             match effective_max with
             | Some m => float_lt m (Fin (price x))
             | None => false
             end = false).
    { destruct effective_max as [m|].
      - split; [eauto | intros ? ? [= <-]; done].
      - split; [done | intros _ ? [=]]. }
    destruct (match effective_min with
              | Some m => float_lt (Fin (price x)) m
              | None => false
              end).
    { rewrite IH, elem_of_cons. split; [tauto |].
      intros [[-> | ?] [? ?]]; [| tauto].
      assert (true = false) by tauto. discriminate. }
    destruct (match effective_max with
              | Some m => float_lt m (Fin (price x))
              | None => false
              end).
    { rewrite IH, elem_of_cons. split; [tauto |].
      intros [[-> | ?] [? ?]]; [| tauto].
      assert (true = false) by tauto. discriminate. }
    rewrite !elem_of_cons, IH. split.
    + intros [-> | ?]; [| tauto]. split; [by left | tauto].
    + tauto.
Qed.




(** End to end, the engine returns exactly the listing priced 150. *)
Lemma find_matching_listings_laptop :
  @find_matching_listings reference_runtime laptop_source [inl laptop_cfg]
    None None None
  = [laptop_listing 150 "/s-anzeige/2"].
Proof. vm_compute. reflexivity. Qed.

(** ** Stable sort *)

Section SortedFacts.
Context {A K : Type} (lt : K → K → bool) (key : A → K).

Lemma insert_sorted_perm (x : A) (l : list A) :
  insert_sorted lt key x l ≡ₚ x :: l.
Proof.
  induction l as [|y l IH]; simpl; [reflexivity |].
  destruct (lt (key y) (key x)); [| reflexivity].
  rewrite IH. apply Permutation_swap.
Qed.

Lemma sorted_perm (l : list A) : sorted lt key l ≡ₚ l.
Proof.
  induction l as [|x l IH]; simpl; [reflexivity |].
  rewrite insert_sorted_perm. by rewrite IH.
Qed.

(** Ascending order, for any order [le] that [lt] decides. *)
Section Ascending.
Variable le : K → K → Prop.
Hypothesis lt_true : ∀ a b, lt a b = true → le a b.
Hypothesis lt_false : ∀ a b, lt a b = false → le b a.
Hypothesis le_trans : ∀ a b c, le a b → le b c → le a c.

Let ascending (a b : A) : Prop := le (key a) (key b).

Lemma insert_sorted_ascending (x : A) (l : list A) :
  StronglySorted ascending l →
  StronglySorted ascending (insert_sorted lt key x l).
Proof.
  induction 1 as [|y l Hsorted IH Hall]; simpl.
  - repeat constructor.
  - destruct (lt (key y) (key x)) eqn:Hlt.
    + constructor; [exact IH |].
      rewrite insert_sorted_perm. constructor; [by apply lt_true | exact Hall].
    + constructor; [by constructor |].
      assert (Hxy : ascending x y) by (by apply lt_false).
      constructor; [exact Hxy |].
      eapply Forall_impl; [exact Hall |].
      intros z Hyz. by eapply le_trans.
Qed.

Lemma sorted_ascending (l : list A) :
  StronglySorted ascending (sorted lt key l).
Proof.
  induction l as [|x l IH]; simpl; [constructor |].
  by apply insert_sorted_ascending.
Qed.
End Ascending.

(** Stability: a class [P] of elements that no element of the class
    is strictly above keeps its order. *)
Section Stable.
Context (P : A → Prop) `{∀ a, Decision (P a)}.
Hypothesis class_tie : ∀ x y, P x → P y → lt (key y) (key x) = false.

Lemma filter_insert_sorted (x : A) (l : list A) :
  filter P (insert_sorted lt key x l)
  = if decide (P x) then x :: filter P l else filter P l.
Proof.
  induction l as [|y l IH]; simpl.
  - rewrite filter_cons, filter_nil. reflexivity.
  - destruct (lt (key y) (key x)) eqn:Hlt.
    + rewrite !filter_cons, IH.
      destruct (decide (P x)) as [Hx|Hx]; [| reflexivity].
      destruct (decide (P y)) as [Hy|Hy]; [| reflexivity].
      rewrite (class_tie x y Hx Hy) in Hlt. discriminate.
    + rewrite (filter_cons P x). reflexivity.
Qed.

Lemma filter_sorted (l : list A) :
  filter P (sorted lt key l) = filter P l.
Proof.
  induction l as [|x l IH]; simpl; [reflexivity |].
  rewrite filter_insert_sorted, filter_cons, IH. reflexivity.
Qed.
End Stable.
End SortedFacts.

(** ** Deduplication *)

Lemma dedup_loop_filter (seen_urls : gset str) (all_hits : list Listing) (u : str) :
  filter (λ listing, url listing = u) (dedup_loop seen_urls all_hits)
  = if decide (u ∈ seen_urls) then []
    else option_list (head (filter (λ listing, url listing = u) all_hits)).
Proof.
  revert seen_urls. induction all_hits as [|x rest IH]; intros seen_urls; simpl.
  - rewrite filter_nil. by destruct (decide _).
  - rewrite (filter_cons _ x rest).
    destruct (decide (url x ∈ seen_urls)) as [Hseen|Hfresh].
    + rewrite IH. destruct (decide (u ∈ seen_urls)) as [Hu|Hu]; [reflexivity |].
      destruct (decide (url x = u)) as [<-|Hne]; [contradiction | reflexivity].
    + rewrite filter_cons, IH.
      destruct (decide (url x = u)) as [<-|Hne].
      * rewrite decide_True by set_solver.
        rewrite decide_False by exact Hfresh. reflexivity.
      * destruct (decide (u ∈ seen_urls)) as [Hu|Hu].
        -- rewrite decide_True by set_solver. reflexivity.
        -- rewrite decide_False by set_solver. reflexivity.
Qed.

Lemma dedup_loop_sublist (seen_urls : gset str) (all_hits : list Listing) :
  dedup_loop seen_urls all_hits `sublist_of` all_hits.
Proof.
  revert seen_urls. induction all_hits as [|x rest IH]; intros seen_urls; simpl.
  - constructor.
  - destruct (decide _); [apply sublist_cons | apply sublist_skip]; apply IH.
Qed.

Lemma dedup_loop_NoDup (seen_urls : gset str) (all_hits : list Listing) :
  NoDup (url <$> dedup_loop seen_urls all_hits)
  ∧ ∀ u, u ∈ url <$> dedup_loop seen_urls all_hits → u ∉ seen_urls.
Proof.
  revert seen_urls. induction all_hits as [|x rest IH]; intros seen_urls; simpl.
  - split; [constructor | intros u Hu; by apply elem_of_nil in Hu].
  - destruct (decide (url x ∈ seen_urls)) as [Hseen|Hfresh]; [apply IH |].
    destruct (IH ({[url x]} ∪ seen_urls)) as [Hnodup Hout].
    rewrite fmap_cons. split.
    + constructor; [| exact Hnodup].
      intros Hin. apply Hout in Hin. set_solver.
    + intros u [-> | Hin]%elem_of_cons; [exact Hfresh |].
      apply Hout in Hin. set_solver.
Qed.

(** C4.  The engine's result is the stable sort by price of the
    deduplicated hits.  For every list of hits: for each URL the output
    holds exactly the first hit with that URL; the deduplicated hits
    are the hits with later duplicates removed, in their original order;
    the output ascends by price; listings of equal price keep the order of
    the deduplicated hits; no URL occurs twice in the output and every
    output element is one of the hits. *)
Theorem dedup_and_sort :
  ∀ all_hits : list Listing,
    let unique_hits := dedup_loop ∅ all_hits in
    let output := sorted Qltb price unique_hits in
    (∀ (R : PyRuntime) source search_terms min_price0 max_price0 extra,
       find_matching_listings source search_terms min_price0 max_price0 extra
       = sorted Qltb price
           (dedup_loop ∅ (collect_hits source min_price0 max_price0 extra
                            (map to_config search_terms))))
    ∧ (∀ u, filter (λ listing, url listing = u) output
            = option_list (head (filter (λ listing, url listing = u) all_hits)))
    ∧ unique_hits `sublist_of` all_hits
    ∧ StronglySorted (λ a b, (price a <= price b)%Q) output
    ∧ (∀ p, filter (λ listing, (price listing == p)%Q) output
            = filter (λ listing, (price listing == p)%Q) unique_hits)
    ∧ NoDup (url <$> output)
    ∧ (∀ listing, listing ∈ output → listing ∈ all_hits).
Proof.
  intros all_hits unique_hits output.
  assert (Hperm : output ≡ₚ unique_hits) by apply sorted_perm.
  split; [reflexivity |]. split; [| split; [| split; [| split; [| split]]]].
  - intros u.
    assert (Hfilter : filter (λ listing, url listing = u) output
                      ≡ₚ filter (λ listing, url listing = u) unique_hits)
      by (by rewrite Hperm).
    unfold unique_hits in Hfilter. rewrite dedup_loop_filter in Hfilter.
    rewrite decide_False in Hfilter by set_solver.
    destruct (head _); simpl in *.
    + by apply Permutation_singleton_r.
    + by apply Permutation_nil_r.
  - apply dedup_loop_sublist.
  - apply (sorted_ascending Qltb price Qle).
    + intros a b Hlt%Qltb_lt. by apply Qlt_le_weak.
    + intros a b Hge%Qltb_ge. exact Hge.
    + intros a b c. apply Qle_trans.
  - intros p. apply filter_sorted.
    intros x y Hx Hy. apply Qltb_ge. rewrite Hx, Hy. apply Qle_refl.
  - rewrite Hperm. apply dedup_loop_NoDup.
  - intros listing Hin. rewrite Hperm in Hin.
    eapply elem_of_sublist; [exact Hin | apply dedup_loop_sublist].
Qed.

(** ** Seen-state store *)

Section SeenStateFacts.
Context `{PyRuntime}.

Lemma py_str_JStr (urls : list str) : py_str <$> (JStr <$> urls) = urls.
Proof.
  induction urls as [|u urls IH]; [reflexivity |].
  rewrite !fmap_cons, IH. reflexivity.
Qed.

(** What [load_seen_urls] returns and logs, by cases on the store. *)
Lemma load_seen_urls_cases (d : Disk) :
  load_seen_urls d =
  match state_file d with
  | Missing => (Some ∅, d, [])
  | Unreadable => (Some ∅, d, [EvWarn ReadFailed])
  | Content raw =>
      match json_loads raw with
      | JSONDecodeError => (Some ∅, d, [EvWarn ParseFailed])
      | JsonRaises => (None, d, [])
      | Decoded (JList data) => (Some (list_to_set (py_str <$> data)), d, [])
      | Decoded _ => (Some ∅, d, [EvWarn UnexpectedFormat])
      end
  end.
Proof.
  unfold load_seen_urls, mbind, IO_bind, read_text, emit, raise, mret, IO_ret.
  destruct (state_file d) as [| |raw]; try reflexivity.
  destruct (json_loads raw) as [[]| |]; reflexivity.
Qed.


End SeenStateFacts.




(** ** Inter-run filter *)

Section FilterNewFacts.
Context `{PyRuntime}.

Lemma load_seen_urls_outcome (d : Disk) (seen : gset str) :
  value_of (load_seen_urls d) = Some seen →
  load_seen_urls d = (Some seen, d, log_of (load_seen_urls d)).
Proof.
  rewrite load_seen_urls_cases.
  destruct (state_file d) as [| |raw]; try (by intros [= <-]).
  destruct (json_loads raw) as [[]| |]; by intros [= <-].
Qed.

Lemma load_seen_urls_no_write (d : Disk) (raw : str) :
  EvWriteText raw ∉ log_of (load_seen_urls d).
Proof.
  rewrite load_seen_urls_cases.
  destruct (state_file d) as [| |raw']; simpl;
    [| | destruct (json_loads raw') as [[]| |]; simpl];
    rewrite ?elem_of_cons, ?elem_of_nil; intros Hin;
    repeat destruct Hin as [Hin|Hin]; congruence.
Qed.

Lemma save_seen_urls_ok (urls : gset str) (d : Disk) :
  mkdir_raises d = false → write_raises d = None →
  save_seen_urls urls d
  = (Some (),
     {| state_file := Content (saved_text urls); mkdir_raises := false;
        write_raises := None |},
     [EvMkdir; EvWriteText (saved_text urls)]).
Proof.
  intros Hmkdir Hwrite.
  unfold save_seen_urls, mbind, IO_bind, mkdir, try_write_text, mret, IO_ret.
  rewrite Hmkdir. simpl. rewrite Hwrite, Hmkdir. reflexivity.
Qed.

Lemma filter_new_listings_none (listings : list Listing) (d : Disk)
    (seen : gset str) :
  value_of (load_seen_urls d) = Some seen →
  filter (λ listing, url listing ∉ seen) listings = [] →
  filter_new_listings listings d = (Some [], d, log_of (load_seen_urls d)).
Proof.
  intros Hseen Hnone.
  pose proof (load_seen_urls_outcome d seen Hseen) as Hload.
  set (w := log_of (load_seen_urls d)) in *.
  unfold filter_new_listings, mbind, IO_bind. rewrite Hload, Hnone.
  unfold mret, IO_ret. rewrite app_nil_r. reflexivity.
Qed.

Lemma filter_new_listings_some (listings : list Listing) (d : Disk)
    (seen : gset str) :
  value_of (load_seen_urls d) = Some seen →
  filter (λ listing, url listing ∉ seen) listings ≠ [] →
  mkdir_raises d = false → write_raises d = None →
  let new_listings := filter (λ listing, url listing ∉ seen) listings in
  let merged := seen ∪ list_to_set (url <$> new_listings) in
  filter_new_listings listings d
  = (Some new_listings,
     {| state_file := Content (saved_text merged); mkdir_raises := false;
        write_raises := None |},
     log_of (load_seen_urls d) ++ [EvMkdir; EvWriteText (saved_text merged)]).
Proof.
  intros Hseen Hsome Hmkdir Hwrite new_listings merged.
  pose proof (load_seen_urls_outcome d seen Hseen) as Hload.
  set (w := log_of (load_seen_urls d)) in *.
  unfold filter_new_listings, mbind, IO_bind. rewrite Hload.
  fold new_listings. fold new_listings in Hsome.
  destruct new_listings as [|x new_listings'] eqn:Hnew; [congruence |].
  fold merged. rewrite (save_seen_urls_ok merged d Hmkdir Hwrite).
  unfold mret, IO_ret. rewrite app_nil_r. reflexivity.
Qed.
End FilterNewFacts.

(** C10.  When every listing handed to [filter_new_listings] has its
    URL in the loaded seen set, the result is the empty list, the disk is
    left as it was, and the log is that of the load alone: no directory
    is made and nothing is written.  Conversely a write to the state file,
    or any change of the disk, happens only when some listing is new. *)
Theorem filter_new_listings_frame :
  ∀ (R : PyRuntime) (d : Disk) (listings : list Listing) (seen : gset str),
    value_of (load_seen_urls d) = Some seen →
    ((∀ listing, listing ∈ listings → url listing ∈ seen) →
     value_of (filter_new_listings listings d) = Some []
     ∧ disk_of (filter_new_listings listings d) = d
     ∧ log_of (filter_new_listings listings d) = log_of (load_seen_urls d)
     ∧ (EvMkdir ∉ log_of (filter_new_listings listings d))
     ∧ (∀ raw, EvWriteText raw ∉ log_of (filter_new_listings listings d)))
    ∧ (((∃ raw, EvWriteText raw ∈ log_of (filter_new_listings listings d))
        ∨ disk_of (filter_new_listings listings d) ≠ d) →
       ∃ listing, listing ∈ listings ∧ url listing ∉ seen).
Proof.
  intros R d listings seen Hseen.
  destruct (filter (λ listing, url listing ∉ seen) listings)
    as [|x new_listings] eqn:Hnew.
  - rewrite (filter_new_listings_none listings d seen Hseen Hnew).
    unfold value_of, disk_of, log_of at 1 3 4 5. simpl.
    split.
    + intros _. repeat split.
      * rewrite load_seen_urls_cases.
        destruct (state_file d) as [| |raw']; simpl;
          [| | destruct (json_loads raw') as [[]| |]; simpl];
          rewrite ?elem_of_cons, ?elem_of_nil; intros Hin;
          repeat destruct Hin as [Hin|Hin]; congruence.
      * intros raw. apply load_seen_urls_no_write.
    + intros [[raw Hin] | Hdisk]; [| congruence].
      by apply load_seen_urls_no_write in Hin.
  - assert (Hx : x ∈ filter (λ listing, url listing ∉ seen) listings)
      by (rewrite Hnew; apply elem_of_cons; by left).
    apply list_elem_of_filter in Hx as [Hfresh Hx].
    split; [| intros _; by exists x].
    intros Hall. destruct Hfresh. by apply Hall.
Qed.

(** The witness: the only listing is already in the state file. *)
Lemma filter_new_listings_frame_witness :
  value_of (@filter_new_listings reference_runtime [seen_listing] two_urls_disk)
  = Some []
  ∧ disk_of (@filter_new_listings reference_runtime [seen_listing] two_urls_disk)
    = two_urls_disk
  ∧ log_of (@filter_new_listings reference_runtime [seen_listing] two_urls_disk)
    = log_of (@load_seen_urls reference_runtime two_urls_disk)
  ∧ (EvMkdir
       ∉ log_of (@filter_new_listings reference_runtime [seen_listing]
                   two_urls_disk))
  ∧ (∀ raw,
       EvWriteText raw
         ∉ log_of (@filter_new_listings reference_runtime [seen_listing]
                     two_urls_disk)).
Proof.
  apply (filter_new_listings_frame reference_runtime two_urls_disk [seen_listing]
           (list_to_set [py "https://a/1"; py "https://b/2"])).
  - vm_compute. reflexivity.
  - intros listing Hin. apply list_elem_of_singleton in Hin. subst listing.
    apply elem_of_list_to_set, elem_of_cons. left. reflexivity.
Defined.

(** ** Idempotence of notify mode *)

Lemma filter_none {A : Type} (P : A → Prop) `{∀ a, Decision (P a)} (l : list A) :
  (∀ x, x ∈ l → ¬ P x) → filter P l = [].
Proof.
  induction l as [|x l IH]; intros Hnone; [reflexivity |].
  rewrite filter_cons, decide_False.
  - apply IH. intros y Hy. apply Hnone, elem_of_cons. by right.
  - apply Hnone, elem_of_cons. by left.
Qed.

Section IdempotenceFacts.
Context `{PyRuntime}.

Lemma load_seen_urls_only_warns (d : Disk) (e : Event) :
  e ∈ log_of (load_seen_urls d) → ∃ w, e = EvWarn w.
Proof.
  rewrite load_seen_urls_cases.
  destruct (state_file d) as [| |raw']; simpl;
    [| | destruct (json_loads raw') as [[]| |]; simpl];
    rewrite ?elem_of_cons, ?elem_of_nil; intros Hin;
    repeat destruct Hin as [Hin|Hin]; try contradiction; eauto.
Qed.

(** A run in notify mode over hits that hold nothing new. *)
Lemma run_once_nothing_new
    (enable_email enable_ntfy : bool) (source : CandidateSource)
    (search_terms : list (SearchTermConfig + str))
    (min_price0 max_price0 : option pyfloat) (extra : option (list str))
    (d : Disk) (seen : gset str) :
  value_of (load_seen_urls d) = Some seen →
  filter (λ listing, url listing ∉ seen)
    (find_matching_listings source search_terms min_price0 max_price0 extra)
  = [] →
  run_once true enable_email enable_ntfy source search_terms
           min_price0 max_price0 extra d
  = (Some (), d, log_of (load_seen_urls d) ++ [EvNoNewListings]).
Proof.
  intros Hseen Hnone.
  unfold run_once, mbind, IO_bind.
  change (negb true) with false. cbv beta iota.
  rewrite (filter_new_listings_none _ d seen Hseen Hnone).
  reflexivity.
Qed.

(** A run in notify mode that saves its new listings. *)
Lemma run_once_saves
    (enable_email enable_ntfy : bool) (source : CandidateSource)
    (search_terms : list (SearchTermConfig + str))
    (min_price0 max_price0 : option pyfloat) (extra : option (list str))
    (d : Disk) (seen : gset str) :
  let all_hits :=
    find_matching_listings source search_terms min_price0 max_price0 extra in
  let new_hits := filter (λ listing, url listing ∉ seen) all_hits in
  let merged := seen ∪ list_to_set (url <$> new_hits) in
  value_of (load_seen_urls d) = Some seen →
  new_hits ≠ [] →
  mkdir_raises d = false → write_raises d = None →
  run_once true enable_email enable_ntfy source search_terms
           min_price0 max_price0 extra d
  = (Some (),
     {| state_file := Content (saved_text merged); mkdir_raises := false;
        write_raises := None |},
     (log_of (load_seen_urls d) ++ [EvMkdir; EvWriteText (saved_text merged)])
     ++ (if enable_email then [EvNotify Email new_hits] else [])
     ++ (if enable_ntfy then [EvNotify Ntfy new_hits] else [])).
Proof.
  intros all_hits new_hits merged Hseen Hsome Hmkdir Hwrite.
  pose proof (filter_new_listings_some all_hits d seen Hseen Hsome Hmkdir Hwrite)
    as Hfilter.
  cbv zeta in Hfilter. fold new_hits in Hfilter. fold merged in Hfilter.
  unfold run_once, mbind, IO_bind.
  change (negb true) with false. cbv beta iota. fold all_hits.
  rewrite Hfilter.
  destruct new_hits as [|x new_hits'] eqn:Hnew; [congruence |].
  destruct enable_email, enable_ntfy; reflexivity.
Qed.

(** Saving a set and loading it again, when the codec reads back the
    list it wrote. *)
Lemma load_saved (urls : gset str) (mk : bool) (wr : option file_state) :
  let saved := sorted str_ltb id (elements urls) in
  json_loads (json_dumps (JList (JStr <$> saved)))
  = Decoded (JList (JStr <$> saved)) →
  value_of (load_seen_urls
              {| state_file := Content (saved_text urls);
                 mkdir_raises := mk; write_raises := wr |})
  = Some urls.
Proof.
  intros saved Hcodec. rewrite load_seen_urls_cases. simpl.
  unfold saved_text. fold saved. rewrite Hcodec, py_str_JStr.
  unfold value_of. simpl. f_equal.
  apply set_eq. intros u.
  rewrite elem_of_list_to_set. unfold saved.
  rewrite sorted_perm. apply elem_of_elements.
Qed.
End IdempotenceFacts.

(** C5.  Take a run in notify mode from a disk whose state file loads
    as [seen], in an environment where the directory can be made, the
    write does not fail and the codec reads back the list of URLs that
    this run writes.  The run completes; its new listings are exactly the
    hits whose URL is not in [seen], they go to every enabled sink, and
    the state file it leaves loads as [seen] merged with their URLs.  On
    that disk the same candidates give no new listing: the inter-run
    filter returns the empty list, and a second run completes, leaves
    the disk as it found it and hands nothing to any sink. *)
Theorem notify_mode_idempotent :
  ∀ (R : PyRuntime) (enable_email enable_ntfy : bool)
    (source : CandidateSource) (search_terms : list (SearchTermConfig + str))
    (min_price0 max_price0 : option pyfloat) (extra : option (list str))
    (d : Disk) (seen : gset str),
    let run := run_once true enable_email enable_ntfy source search_terms
                        min_price0 max_price0 extra in
    let all_hits :=
      find_matching_listings source search_terms min_price0 max_price0 extra in
    let new_hits := filter (λ listing, url listing ∉ seen) all_hits in
    let saved :=
      sorted str_ltb id (elements (seen ∪ list_to_set (url <$> new_hits))) in
    value_of (load_seen_urls d) = Some seen →
    mkdir_raises d = false →
    write_raises d = None →
    json_loads (json_dumps (JList (JStr <$> saved)))
    = Decoded (JList (JStr <$> saved)) →
    (value_of (run d) = Some ()
     ∧ value_of (filter_new_listings all_hits d) = Some new_hits
     ∧ (new_hits ≠ [] → enable_email = true →
        EvNotify Email new_hits ∈ log_of (run d))
     ∧ (new_hits ≠ [] → enable_ntfy = true →
        EvNotify Ntfy new_hits ∈ log_of (run d))
     ∧ value_of (load_seen_urls (disk_of (run d)))
       = Some (seen ∪ list_to_set (url <$> new_hits)))
    ∧ value_of (filter_new_listings all_hits (disk_of (run d))) = Some []
    ∧ value_of (run (disk_of (run d))) = Some ()
    ∧ disk_of (run (disk_of (run d))) = disk_of (run d)
    ∧ (∀ sink listings,
         EvNotify sink listings ∉ log_of (run (disk_of (run d)))).
Proof.
  intros R enable_email enable_ntfy source search_terms min_price0 max_price0
    extra d seen run all_hits new_hits saved Hseen Hmkdir Hwrite Hcodec.
  assert (Hquiet : ∀ d1 seen1,
    value_of (load_seen_urls d1) = Some seen1 →
    filter (λ listing, url listing ∉ seen1) all_hits = [] →
    value_of (filter_new_listings all_hits d1) = Some []
    ∧ value_of (run d1) = Some ()
    ∧ disk_of (run d1) = d1
    ∧ (∀ sink listings, EvNotify sink listings ∉ log_of (run d1))).
  { intros d1 seen1 Hseen1 Hnone1.
    rewrite (filter_new_listings_none all_hits d1 seen1 Hseen1 Hnone1).
    unfold run.
    rewrite (run_once_nothing_new _ _ _ _ _ _ _ d1 seen1 Hseen1 Hnone1).
    repeat split.
    intros sink listings Hin. unfold log_of at 1 in Hin. simpl in Hin.
    apply elem_of_app in Hin as [Hin | Hin].
    - apply load_seen_urls_only_warns in Hin as [w Hw]. discriminate.
    - apply list_elem_of_singleton in Hin. discriminate. }
  destruct new_hits as [|x new_hits'] eqn:Hnew.
  - (* nothing new in the first run: the disk is untouched *)
    assert (Hrun : run d = (Some (), d, log_of (load_seen_urls d) ++ [EvNoNewListings]))
      by (apply (run_once_nothing_new _ _ _ _ _ _ _ d seen Hseen Hnew)).
    rewrite Hrun. unfold disk_of at 1 2 3 5. cbn [fst snd].
    split; [| apply (Hquiet d seen Hseen Hnew)].
    split; [reflexivity |].
    split; [by rewrite (filter_new_listings_none all_hits d seen Hseen Hnew) |].
    split; [congruence |]. split; [congruence |].
    rewrite Hseen, fmap_nil, list_to_set_nil. f_equal. by rewrite (right_id_L ∅ (∪)).
  - (* the first run saves the merged set *)
    assert (Hsome : filter (λ listing, url listing ∉ seen) all_hits ≠ [])
      by (fold new_hits; rewrite Hnew; discriminate).
    pose proof (run_once_saves enable_email enable_ntfy source search_terms
                  min_price0 max_price0 extra d seen Hseen Hsome Hmkdir Hwrite)
      as Hrun.
    cbv zeta in Hrun. fold all_hits in Hrun. fold new_hits in Hrun.
    rewrite Hnew in Hrun. fold run in Hrun.
    pose proof (filter_new_listings_some all_hits d seen Hseen Hsome Hmkdir Hwrite)
      as Hfilter.
    cbv zeta in Hfilter. fold new_hits in Hfilter. rewrite Hnew in Hfilter.
    set (merged := seen ∪ list_to_set (url <$> x :: new_hits')) in *.
    set (d1 := {| state_file := Content (saved_text merged);
                  mkdir_raises := false; write_raises := None |}) in *.
    assert (Hseen1 : value_of (load_seen_urls d1) = Some merged)
      by (apply load_saved; exact Hcodec).
    assert (Hdisk : disk_of (run d) = d1) by (by rewrite Hrun).
    rewrite Hdisk. split.
    + split; [by rewrite Hrun |]. split; [by rewrite Hfilter |].
      split; [| split; [| exact Hseen1]].
      * intros _ ->. rewrite Hrun. unfold log_of. cbn [snd].
        rewrite !elem_of_app, !elem_of_cons. auto.
      * intros _ ->. rewrite Hrun. unfold log_of. cbn [snd].
        rewrite !elem_of_app, !elem_of_cons. auto.
    + apply (Hquiet d1 merged Hseen1).
      apply filter_none. intros listing Hin Hfresh. apply Hfresh.
      destruct (decide (url listing ∈ seen)) as [Hold | Hnot].
      * apply elem_of_union. by left.
      * apply elem_of_union. right.
        apply elem_of_list_to_set, list_elem_of_fmap. exists listing.
        split; [reflexivity |]. rewrite <- Hnew. unfold new_hits.
        apply list_elem_of_filter. by split.
Qed.

(** The witness: two runs over the laptop source, from a missing state
    file. *)
Lemma notify_mode_idempotent_witness :
  let run := @run_once reference_runtime true true true laptop_source
               [inl laptop_cfg] None None None in
  let all_hits := @find_matching_listings reference_runtime laptop_source
                    [inl laptop_cfg] None None None in
  let new_hits := filter (λ listing, url listing ∉ (∅ : gset str)) all_hits in
  (value_of (run missing_disk) = Some ()
   ∧ value_of (@filter_new_listings reference_runtime all_hits missing_disk)
     = Some new_hits
   ∧ (new_hits ≠ [] → true = true →
      EvNotify Email new_hits ∈ log_of (run missing_disk))
   ∧ (new_hits ≠ [] → true = true →
      EvNotify Ntfy new_hits ∈ log_of (run missing_disk))
   ∧ value_of (@load_seen_urls reference_runtime (disk_of (run missing_disk)))
     = Some (∅ ∪ list_to_set (url <$> new_hits)))
  ∧ value_of (@filter_new_listings reference_runtime all_hits
                (disk_of (run missing_disk))) = Some []
  ∧ value_of (run (disk_of (run missing_disk))) = Some ()
  ∧ disk_of (run (disk_of (run missing_disk))) = disk_of (run missing_disk)
  ∧ (∀ sink listings,
       EvNotify sink listings ∉ log_of (run (disk_of (run missing_disk)))).
Proof.
  refine (notify_mode_idempotent reference_runtime true true laptop_source
            [inl laptop_cfg] None None None missing_disk ∅ _ _ _ _);
    vm_compute; reflexivity.
Defined.


(** * Further properties *)

(** ** Python string operations *)

Lemma lstrip_head (s : str) :
  lstrip s = [] ∨ ∃ c r, lstrip s = c :: r ∧ isspace c = false.
Proof.
  induction s as [|c s IH]; simpl; [by left |].
  destruct (isspace c) eqn:Hc; [exact IH | right; eauto].
Qed.

Lemma lstrip_fixed (c : cp) (r : str) :
  isspace c = false → lstrip (c :: r) = c :: r.
Proof. intros Hc. simpl. by rewrite Hc. Qed.

Lemma lstrip_idemp (s : str) : lstrip (lstrip s) = lstrip s.
Proof.
  destruct (lstrip_head s) as [-> | [c [r [-> Hc]]]]; [reflexivity |].
  by apply lstrip_fixed.
Qed.

Lemma lstrip_snoc (s : str) (c : cp) :
  isspace c = false → lstrip (s ++ [c]) = lstrip s ++ [c].
Proof.
  intros Hc. induction s as [|x s IH]; simpl.
  - by rewrite Hc.
  - destruct (isspace x); [exact IH | reflexivity].
Qed.

Lemma rstrip_cons (c : cp) (r : str) :
  isspace c = false → rstrip (c :: r) = c :: rstrip r.
Proof.
  intros Hc. unfold rstrip.
  rewrite reverse_cons, lstrip_snoc, reverse_app by exact Hc. reflexivity.
Qed.

Lemma rstrip_idemp (s : str) : rstrip (rstrip s) = rstrip s.
Proof. unfold rstrip. by rewrite reverse_involutive, lstrip_idemp. Qed.

(** [strip] leaves a text without white space at either end. *)
Lemma strip_idemp (s : str) : strip (strip s) = strip s.
Proof.
  unfold strip.
  destruct (lstrip_head s) as [-> | [c [r [-> Hc]]]]; [reflexivity |].
  rewrite (rstrip_cons c r Hc), (lstrip_fixed c _ Hc).
  rewrite (rstrip_cons c _ Hc), rstrip_idemp. reflexivity.
Qed.

Lemma partition_spec (sep : cp) (s h t : str) (found : bool) :
  partition sep s = (h, found, t) →
  (sep ∉ h) ∧ s = h ++ (if found then sep :: t else []) ∧ (found = false → t = []).
Proof.
  revert h t found. induction s as [|c s IH]; intros h t found; simpl.
  - intros [= <- <- <-]. split; [apply not_elem_of_nil | done].
  - destruct (c =? sep) eqn:Hc.
    + intros [= <- <- <-]. apply N.eqb_eq in Hc as ->.
      split; [apply not_elem_of_nil | done].
    + destruct (partition sep s) as [[h' found'] t'].
      intros [= <- <- <-]. destruct (IH h' t' found' eq_refl) as (Hh & Hs & Ht).
      apply N.eqb_neq in Hc. split; [| split].
      * rewrite not_elem_of_cons. split; [congruence | exact Hh].
      * simpl. by rewrite <- Hs.
      * exact Ht.
Qed.

Lemma split_pieces (sep : cp) (s w : str) :
  w ∈ split sep s → (sep ∉ w) ∧ ∀ c, c ∈ w → c ∈ s.
Proof.
  revert w. induction s as [|c s IH]; intros w; simpl.
  - intros ->%list_elem_of_singleton.
    split; [apply not_elem_of_nil | intros c Hc; by apply elem_of_nil in Hc].
  - destruct (c =? sep) eqn:Hc.
    + intros [-> | Hw]%elem_of_cons.
      * split; [apply not_elem_of_nil | intros x Hx; by apply elem_of_nil in Hx].
      * destruct (IH w Hw) as [Hsep Hsub].
        split; [exact Hsep | intros x Hx; apply elem_of_cons; right; by apply Hsub].
    + apply N.eqb_neq in Hc.
      destruct (split sep s) as [|w0 ws] eqn:Hsplit.
      * intros ->%list_elem_of_singleton. split.
        -- rewrite not_elem_of_cons. split; [congruence | apply not_elem_of_nil].
        -- intros x ->%list_elem_of_singleton. apply elem_of_cons. by left.
      * intros [-> | Hw]%elem_of_cons.
        -- destruct (IH w0) as [Hsep Hsub]; [apply elem_of_cons; by left |].
           split.
           ++ rewrite not_elem_of_cons. split; [congruence | exact Hsep].
           ++ intros x [-> | Hx]%elem_of_cons; apply elem_of_cons;
                [by left | right; by apply Hsub].
        -- destruct (IH w) as [Hsep Hsub]; [apply elem_of_cons; by right |].
           split; [exact Hsep |].
           intros x Hx. apply elem_of_cons. right. by apply Hsub.
Qed.

Lemma nonempty_stripped_elem (parts : list str) (t : str) :
  t ∈ nonempty_stripped parts → t ≠ [] ∧ ∃ w, w ∈ parts ∧ t = strip w.
Proof.
  unfold nonempty_stripped. intros [w [Hw Ht]]%list_elem_of_omap.
  destruct (strip w) as [|c r] eqn:Hstrip; [discriminate |].
  injection Ht as <-. split; [discriminate | eauto].
Qed.

(** ** TermSpec parser: what a successful parse returns *)

Lemma term_variants_wf (term_part t : str) :
  58 ∉ term_part →
  t ∈ nonempty_stripped (split 124 (strip term_part)) →
  t ≠ [] ∧ strip t = t ∧ (124 ∉ t) ∧ (58 ∉ t).
Proof.
  intros Hcolon [Hne [w [Hw ->]]]%nonempty_stripped_elem.
  destruct (split_pieces 124 _ w Hw) as [Hpipe Hsub].
  split; [exact Hne |]. split; [apply strip_idemp |]. split.
  - intros Hin%strip_elem. contradiction.
  - intros Hin%strip_elem. apply Hsub, strip_elem in Hin. contradiction.
Qed.

(** X1.  A successful parse returns at least one TermSpec; every term
    is non-empty, has no white space at either end and holds neither a
    pipe nor a colon; all TermSpecs of one argument share their bounds; a
    maximum is only present with a minimum, and is not below it: the
    test [max < min] of the code is false, which for two numbers is
    [min <= max]. *)
Theorem parse_search_term_arg_invariants :
  ∀ (R : PyRuntime) (arg : str) (cfgs : list SearchTermConfig),
    parse_search_term_arg arg = Ok cfgs →
    cfgs ≠ []
    ∧ Forall (λ cfg, cfg_term cfg ≠ [] ∧ strip (cfg_term cfg) = cfg_term cfg
                     ∧ (124 ∉ cfg_term cfg) ∧ (58 ∉ cfg_term cfg)) cfgs
    ∧ ∃ lo hi,
        Forall (λ cfg, min_price cfg = lo ∧ max_price cfg = hi) cfgs
        ∧ (∀ a b, lo = Some a → hi = Some b → float_lt b a = false)
        ∧ (∀ a b, lo = Some (Fin a) → hi = Some (Fin b) → (a <= b)%Q)
        ∧ (lo = None → hi = None).
Proof.
  intros R arg cfgs. unfold parse_search_term_arg.
  destruct (partition 58 arg) as [[term_part sep] price_part] eqn:Hcut.
  apply partition_spec in Hcut as (Hcolon & _ & _).
  destruct (is_empty (strip term_part)); [discriminate |].
  pose proof (term_variants_wf term_part) as Hwf.
  specialize (λ t, Hwf t Hcolon).
  destruct (nonempty_stripped (split 124 (strip term_part))) as [|v vs];
    [discriminate |].
  assert (Hshape : ∀ lo hi cfgs,
    Ok (map (λ t, {| cfg_term := t; min_price := lo; max_price := hi |}) (v :: vs))
    = Ok cfgs →
    cfgs ≠ []
    ∧ Forall (λ cfg, cfg_term cfg ≠ [] ∧ strip (cfg_term cfg) = cfg_term cfg
                     ∧ (124 ∉ cfg_term cfg) ∧ (58 ∉ cfg_term cfg)) cfgs
    ∧ Forall (λ cfg, min_price cfg = lo ∧ max_price cfg = hi) cfgs).
  { intros lo hi cfgs' Heq.
    assert (cfgs' = map (λ t, {| cfg_term := t; min_price := lo;
                                 max_price := hi |}) (v :: vs)) as ->
      by congruence.
    split; [discriminate |].
    split; apply List.Forall_map, List.Forall_forall; intros t Ht; simpl.
    - apply Hwf, list_elem_of_In, Ht.
    - split; reflexivity. }
  destruct (negb sep).
  { intros Hok. destruct (Hshape None None cfgs Hok) as (? & ? & ?).
    split; [assumption |]. split; [assumption |].
    exists None, None. split; [assumption |].
    split; [intros ? ? [=] |]. split; [intros ? ? [=] | reflexivity]. }
  destruct (is_empty (strip price_part)); [discriminate |].
  destruct (str_in (py "-") (strip price_part)).
  - destruct (partition 45 (strip price_part)) as [[low_part found] high_part].
    destruct (is_empty (strip low_part) || is_empty (strip high_part));
      [discriminate |].
    destruct (py_float _) as [local_min|]; [| discriminate].
    destruct (py_float _) as [local_max|]; [| discriminate].
    destruct (float_lt local_max local_min) eqn:Hlt; [discriminate |].
    intros Hok.
    destruct (Hshape (Some local_min) (Some local_max) cfgs Hok) as (? & ? & ?).
    split; [assumption |]. split; [assumption |].
    exists (Some local_min), (Some local_max).
    split; [assumption |]. split; [| split; [| discriminate]].
    + intros a b [= <-] [= <-]. exact Hlt.
    + intros a b [= ->] [= ->]. by apply float_lt_fin_ge.
  - destruct (py_float _) as [local_min|]; [| discriminate].
    intros Hok.
    destruct (Hshape (Some local_min) None cfgs Hok) as (? & ? & ?).
    split; [assumption |]. split; [assumption |].
    exists (Some local_min), None.
    split; [assumption |].
    split; [intros ? ? _ [=] |]. split; [intros ? ? _ [=] | discriminate].
Qed.

Lemma parse_search_term_arg_invariants_witness :
  ∃ cfgs,
    @parse_search_term_arg reference_runtime (py " a | b :10-20") = Ok cfgs
    ∧ cfgs ≠ []
    ∧ Forall (λ cfg, cfg_term cfg ≠ [] ∧ strip (cfg_term cfg) = cfg_term cfg
                     ∧ (124 ∉ cfg_term cfg) ∧ (58 ∉ cfg_term cfg)) cfgs.
Proof.
  eexists. split; [vm_compute; reflexivity |].
  pose proof (parse_search_term_arg_invariants reference_runtime
                (py " a | b :10-20") _ eq_refl) as (Hne & Hall & _).
  split; [exact Hne | exact Hall].
Defined.

(** X2.  Every validation error quotes the raw argument. *)
Theorem parse_search_term_arg_error_quotes_arg :
  ∀ (R : PyRuntime) (arg msg : str),
    parse_search_term_arg arg = ValueError msg → str_in arg msg = true.
Proof.
  intros R arg msg. unfold parse_search_term_arg.
  destruct (partition 58 arg) as [[term_part sep] price_part].
  assert (Hshort : ∀ a b : str,
            ValueError (A := list SearchTermConfig) (a ++ arg ++ b)
            = ValueError msg → str_in arg msg = true).
  { intros a b Heq. assert (msg = a ++ arg ++ b) as -> by congruence.
    apply str_in_infix. eauto. }
  assert (Hlong : ∀ a p b c : str,
            ValueError (A := list SearchTermConfig) (a ++ p ++ b ++ arg ++ c)
            = ValueError msg → str_in arg msg = true).
  { intros a p b c Heq.
    assert (msg = a ++ p ++ b ++ arg ++ c) as -> by congruence.
    apply str_in_infix. exists (a ++ p ++ b), c.
    rewrite <- !app_assoc. reflexivity. }
  destruct (is_empty (strip term_part)); [apply Hshort |].
  destruct (nonempty_stripped (split 124 (strip term_part))) as [|v vs];
    [apply Hshort |].
  destruct (negb sep); [discriminate |].
  destruct (is_empty (strip price_part)); [apply Hshort |].
  destruct (str_in (py "-") (strip price_part)).
  - destruct (partition 45 (strip price_part)) as [[low_part found] high_part].
    destruct (is_empty (strip low_part) || is_empty (strip high_part));
      [apply Hlong |].
    destruct (py_float _) as [local_min|]; [| apply Hlong].
    destruct (py_float _) as [local_max|]; [| apply Hlong].
    destruct (float_lt local_max local_min); [apply Hlong | discriminate].
  - destruct (py_float _) as [local_min|]; [discriminate | apply Hlong].
Qed.

Lemma parse_search_term_arg_error_quotes_arg_witness :
  str_in (py "term:20-10")
         (py "Invalid price range '20-10' in search term 'term:20-10': max < min.")
  = true.
Proof.
  apply (parse_search_term_arg_error_quotes_arg reference_runtime).
  vm_compute. reflexivity.
Defined.


(** ** Title filter: more entries, more exclusions *)

Lemma is_blacklisted_title_cases `{PyRuntime}
    (title search_term : str) (extra : option (list str)) :
  is_blacklisted_title title search_term extra
  = gaming_rule (str_lower title) (str_lower search_term)
    || blacklist_loop DEFAULT_TITLE_BLACKLIST
         (str_lower title) (str_lower search_term)
    || blacklist_loop (str_lower <$> default [] extra)
         (str_lower title) (str_lower search_term).
Proof.
  unfold is_blacklisted_title.
  destruct (gaming_rule _ _); [reflexivity |].
  destruct (blacklist_loop DEFAULT_TITLE_BLACKLIST _ _); [reflexivity |].
  destruct extra as [[|e entries]|]; reflexivity.
Qed.

(** X3.  The verdict only depends on which extra entries there are, and
    grows with them: a title excluded under some extra blacklist (or
    none) stays excluded under every extra blacklist that holds at least
    the same entries.  In particular no extra blacklist and an empty one
    give the same verdict. *)
Theorem is_blacklisted_title_monotone :
  ∀ (R : PyRuntime) (title search_term : str) (extra extra' : option (list str)),
    (∀ e, e ∈ default [] extra → e ∈ default [] extra') →
    is_blacklisted_title title search_term extra = true →
    is_blacklisted_title title search_term extra' = true.
Proof.
  intros R title search_term extra extra' Hsub.
  rewrite !is_blacklisted_title_cases, !orb_true_iff, !blacklist_loop_true.
  intros [[Hgaming | Hdefault] | [bad [Hin Hbad]]]; [tauto | tauto |].
  right. exists bad. split; [| exact Hbad].
  apply list_elem_of_fmap in Hin as [e [-> He]].
  apply list_elem_of_fmap_2. by apply Hsub.
Qed.

Lemma is_blacklisted_title_monotone_witness :
  @is_blacklisted_title reference_runtime (py "RTX 3080 defekt") (py "rtx 3080")
    (Some [py "OVP"; py "Defekt"]) = true.
Proof.
  apply (is_blacklisted_title_monotone reference_runtime _ _ (Some [py "Defekt"])).
  - intros e Hin. apply list_elem_of_singleton in Hin. subst e.
    apply elem_of_cons. right. apply elem_of_cons. left. reflexivity.
  - vm_compute. reflexivity.
Defined.

(** ** Price normalizer: what is handed to [float] *)

Section PriceShape.
Context `{PyRuntime}.

Lemma re_digits_spec (s ds rest : str) :
  re_digits s = (ds, rest) →
  s = ds ++ rest ∧ Forall (λ c, re_digit c = true) ds.
Proof.
  revert ds rest. induction s as [|c s IH]; intros ds rest; simpl.
  - intros [= <- <-]. split; [reflexivity | constructor].
  - destruct (re_digit c) eqn:Hc.
    + destruct (re_digits s) as [ds' rest'].
      intros [= <- <-]. destruct (IH ds' rest' eq_refl) as [-> Hds].
      split; [reflexivity | by constructor].
    + intros [= <- <-]. split; [reflexivity | constructor].
Qed.

Lemma re_fraction_spec (s : str) :
  re_fraction s = []
  ∨ ∃ sep fd, re_fraction s = sep :: fd ∧ (sep = 46 ∨ sep = 44)
      ∧ fd ≠ [] ∧ (length fd ≤ 2)%nat ∧ Forall (λ c, re_digit c = true) fd.
Proof.
  destruct s as [|sep [|d1 rest]]; [by left | by left |]. simpl.
  destruct (((sep =? 46) || (sep =? 44)) && re_digit d1) eqn:Hhead; [| by left].
  apply andb_true_iff in Hhead as [Hsep Hd1].
  apply orb_true_iff in Hsep. rewrite !N.eqb_eq in Hsep.
  right. exists sep. eexists. split; [reflexivity |]. split; [exact Hsep |].
  split; [discriminate |].
  destruct rest as [|d2 rest]; [| destruct (re_digit d2) eqn:Hd2]; simpl;
    (split; [lia | repeat constructor; assumption]).
Qed.

Lemma re_search_price_spec (s m : str) :
  re_search_price s = Some m →
  ∃ ds rest, m = ds ++ re_fraction rest ∧ ds ≠ []
             ∧ Forall (λ c, re_digit c = true) ds.
Proof.
  induction s as [|c s IH]; [discriminate |]. cbn [re_search_price].
  destruct (re_digit c) eqn:Hc; [| exact IH].
  destruct (re_digits (c :: s)) as [ds rest] eqn:Hds.
  intros [= <-]. exists ds, rest.
  pose proof (re_digits_spec _ _ _ Hds) as [_ Hall].
  split; [reflexivity |]. split; [| exact Hall].
  simpl in Hds. rewrite Hc in Hds. destruct (re_digits s). by injection Hds as <- _.
Qed.

Lemma re_search_price_none (s : str) :
  (∀ c, c ∈ s → re_digit c = false) → re_search_price s = None.
Proof.
  induction s as [|c s IH]; intros Hnone; [reflexivity |].
  cbn [re_search_price]. rewrite (Hnone c) by (apply elem_of_cons; by left).
  apply IH. intros x Hx. apply Hnone, elem_of_cons. by right.
Qed.

Lemma replace_char_digits (old : cp) (new ds : str) :
  re_digit old = false → Forall (λ c, re_digit c = true) ds →
  replace_char old new ds = ds.
Proof.
  intros Hold. induction 1 as [|c ds Hc _ IH]; [reflexivity |].
  unfold replace_char in *. simpl. rewrite IH.
  destruct (c =? old) eqn:Heq; [| reflexivity].
  apply N.eqb_eq in Heq. congruence.
Qed.

Lemma replace_char_nil (old : cp) (new : str) : replace_char old new [] = [].
Proof. reflexivity. Qed.

Lemma replace_char_cons (old c : cp) (new s : str) :
  replace_char old new (c :: s)
  = (if c =? old then new else [c]) ++ replace_char old new s.
Proof. reflexivity. Qed.

Lemma replace_char_app (old : cp) (new a b : str) :
  replace_char old new (a ++ b) = replace_char old new a ++ replace_char old new b.
Proof. unfold replace_char. apply flat_map_app. Qed.

Lemma float_price_fin (r : option pyfloat) (p : Q) :
  match r with Some (Fin q) => Some q | Some NaN => None | None => None end
  = Some p →
  r = Some (Fin p).
Proof. destruct r as [[q|]|]; [by intros [= ->] | discriminate | discriminate]. Qed.

Lemma replace_separators_digits (m : str) :
  Forall (λ c, re_digit c = true ∨ c = 46 ∨ c = 44) m →
  Forall (λ c, re_digit c = true ∨ c = 46)
         (replace_char 44 (py ".") (replace_char 46 [] m)).
Proof.
  induction 1 as [|c l Hc _ IH]; [constructor |].
  rewrite replace_char_cons, replace_char_app. apply Forall_app.
  split; [| exact IH].
  destruct (c =? 46) eqn:H46; [constructor |].
  rewrite replace_char_cons, replace_char_nil, app_nil_r.
  destruct (c =? 44) eqn:H44.
  - change (py ".") with [46]. constructor; [by right | constructor].
  - apply N.eqb_neq in H46, H44. constructor; [| constructor].
    destruct Hc as [Hc | [Hc | Hc]]; [by left | congruence | congruence].
Qed.

(** What [parse_price] hands to [float] holds digits and dots only, so
    that by the law of the runtime the result is never NaN: the price of
    a listing is a number. *)
Lemma parse_price_float_digits (s m : str) :
  re_search_price s = Some m →
  Forall (λ c, re_digit c = true ∨ c = 46)
         (replace_char 44 (py ".") (replace_char 46 [] m)).
Proof.
  intros Hsearch.
  destruct (re_search_price_spec _ _ Hsearch) as (ds & rest & -> & _ & Hds).
  apply replace_separators_digits, Forall_app. split.
  - eapply Forall_impl; [exact Hds | intros c Hc; by left].
  - destruct (re_fraction_spec rest)
      as [-> | (sep & fd & -> & Hsep & _ & _ & Hfd)]; [constructor |].
    constructor; [right; exact Hsep |].
    eapply Forall_impl; [exact Hfd | intros c Hc; by left].
Qed.
End PriceShape.

Lemma parse_price_float_not_nan `{PyRuntime} (s m : str) :
  re_search_price s = Some m →
  py_float (replace_char 44 (py ".") (replace_char 46 [] m)) ≠ Some NaN.
Proof.
  intros Hsearch. apply py_float_digits.
  by apply (parse_price_float_digits s).
Qed.


(** X4.  When neither the dot nor the comma is a digit of the runtime,
    a price comes from a match of the pattern that is a non-empty run
    of digits, alone or followed by a dot or a comma and one or two
    digits.  [float] is given the digits alone in the first case, the run
    and the digits after the dot joined without the dot in the second, and
    a decimal with the comma turned into a dot in the third. *)
Theorem parse_price_float_argument :
  ∀ (R : PyRuntime) (text : str) (p : Q),
    re_digit 46 = false → re_digit 44 = false →
    parse_price text = Some p →
    ∃ ds fd,
      ds ≠ [] ∧ Forall (λ c, re_digit c = true) ds
      ∧ Forall (λ c, re_digit c = true) fd ∧ (length fd ≤ 2)%nat
      ∧ ((re_search_price (replace_char 160 (py " ") (strip text)) = Some ds
          ∧ fd = [] ∧ py_float ds = Some (Fin p))
         ∨ (re_search_price (replace_char 160 (py " ") (strip text))
            = Some (ds ++ 46 :: fd)
            ∧ fd ≠ [] ∧ py_float (ds ++ fd) = Some (Fin p))
         ∨ (re_search_price (replace_char 160 (py " ") (strip text))
            = Some (ds ++ 44 :: fd)
            ∧ fd ≠ [] ∧ py_float (ds ++ 46 :: fd) = Some (Fin p))).
Proof.
  intros R text p Hdot Hcomma. unfold parse_price.
  destruct (strip text) as [|c0 r0] eqn:Hstrip; [discriminate |].
  destruct (str_in _ _ || str_in _ _); [discriminate |].
  destruct (re_search_price _) as [m|] eqn:Hsearch; [| discriminate].
  destruct (re_search_price_spec _ _ Hsearch) as (ds & rest & -> & Hne & Hds).
  rewrite !replace_char_app.
  rewrite (replace_char_digits 46 [] ds Hdot Hds).
  rewrite (replace_char_digits 44 (py ".") ds Hcomma Hds).
  destruct (re_fraction_spec rest)
    as [Hfrac | (sep & fd & Hfrac & Hsep & Hfd & Hlen & Hdigits)];
    rewrite Hfrac.
  - rewrite !replace_char_nil, app_nil_r. intros Hp%float_price_fin.
    exists ds, [].
    split; [exact Hne |]. split; [exact Hds |]. split; [constructor |].
    split; [simpl; lia |]. left. done.
  - assert (Hfd46 : replace_char 46 [] fd = fd)
      by (by apply replace_char_digits).
    assert (Hfd44 : replace_char 44 (py ".") fd = fd)
      by (by apply replace_char_digits).
    intros Hp%float_price_fin. exists ds, fd.
    split; [exact Hne |]. split; [exact Hds |]. split; [exact Hdigits |].
    split; [exact Hlen |]. right.
    destruct Hsep as [-> | ->].
    + left. split; [reflexivity |]. split; [exact Hfd |].
      rewrite replace_char_cons, N.eqb_refl, app_nil_l, Hfd46, Hfd44 in Hp.
      exact Hp.
    + right. split; [reflexivity |]. split; [exact Hfd |].
      rewrite (replace_char_cons 46 44) in Hp.
      change (44 =? 46) with false in Hp. cbv iota in Hp.
      rewrite replace_char_app, Hfd46 in Hp.
      rewrite (replace_char_cons 44 44), N.eqb_refl, replace_char_nil in Hp.
      rewrite app_nil_r, Hfd44 in Hp.
      exact Hp.
Qed.

(** A price written with a decimal point: "12.50 €" is read as 1250. *)
Lemma parse_price_float_argument_witness :
  ∃ ds fd,
    ds ≠ [] ∧ Forall (λ c, Reference.is_ascii_digit c = true) ds
    ∧ Forall (λ c, Reference.is_ascii_digit c = true) fd ∧ (length fd ≤ 2)%nat
    ∧ ((@re_search_price reference_runtime
          (replace_char 160 (py " ") (strip (py "12.50 €"))) = Some ds
        ∧ fd = [] ∧ Reference.decimal_literal ds = Some (Fin (1250 # 1)))
       ∨ (@re_search_price reference_runtime
            (replace_char 160 (py " ") (strip (py "12.50 €")))
          = Some (ds ++ 46 :: fd)
          ∧ fd ≠ [] ∧ Reference.decimal_literal (ds ++ fd) = Some (Fin (1250 # 1)))
       ∨ (@re_search_price reference_runtime
            (replace_char 160 (py " ") (strip (py "12.50 €")))
          = Some (ds ++ 44 :: fd)
          ∧ fd ≠ []
          ∧ Reference.decimal_literal (ds ++ 46 :: fd) = Some (Fin (1250 # 1)))).
Proof.
  apply (parse_price_float_argument reference_runtime (py "12.50 €") (1250 # 1)%Q);
    vm_compute; reflexivity.
Defined.

(** X5.  A price text without any digit has no price, when the space is
    not a digit of the runtime. *)
Theorem parse_price_without_digit :
  ∀ (R : PyRuntime) (text : str),
    re_digit 32 = false →
    (∀ c, c ∈ text → re_digit c = false) →
    parse_price text = None.
Proof.
  intros R text Hspace Hnone. unfold parse_price.
  destruct (strip text) as [|c0 r0] eqn:Hstrip; [reflexivity |].
  destruct (str_in _ _ || str_in _ _); [reflexivity |].
  rewrite re_search_price_none; [reflexivity |].
  intros c Hc. unfold replace_char in Hc.
  apply list_elem_of_In, in_flat_map in Hc as [x [Hx Hc]].
  apply list_elem_of_In in Hx. rewrite <- Hstrip in Hx. apply strip_elem in Hx.
  destruct (x =? 160).
  - apply list_elem_of_In, list_elem_of_singleton in Hc. by subst c.
  - apply list_elem_of_In, list_elem_of_singleton in Hc. subst c. by apply Hnone.
Qed.

Lemma parse_price_without_digit_witness :
  @parse_price reference_runtime (py "VB") = None.
Proof.
  apply (parse_price_without_digit reference_runtime).
  - reflexivity.
  - intros c Hc. apply elem_of_cons in Hc as [-> | Hc]; [reflexivity |].
    apply list_elem_of_singleton in Hc. subst c. reflexivity.
Defined.


(** ** Match engine *)

Section MatchEngineFacts.
Context `{PyRuntime}.
Variable source : CandidateSource.

Lemma listing_of_ad_spec
    (t : str) (extra : option (list str)) (ad : RawAd) (listing : Listing) :
  listing_of_ad t extra ad = Some listing →
  term listing = t
  ∧ startswith (py "http") (url listing) = true
  ∧ is_blacklisted_title (title listing) t extra = false
  ∧ title listing = ad_title ad
  ∧ location listing = ad_location ad
  ∧ parse_price (ad_price_text ad) = Some (price listing)
  ∧ (url listing = ad_href ad
     ∨ url listing = py "https://www.kleinanzeigen.de" ++ ad_href ad).
Proof.
  unfold listing_of_ad.
  set (href := if startswith (py "http") (ad_href ad) then ad_href ad
               else py "https://www.kleinanzeigen.de" ++ ad_href ad).
  destruct (is_blacklisted_title (ad_title ad) t extra) eqn:Hfilter;
    [discriminate |].
  destruct (parse_price (ad_price_text ad)) as [p|] eqn:Hprice; [| discriminate].
  intros Heq.
  assert (listing = {| title := ad_title ad; price := p;
                       location := ad_location ad; url := href; term := t |})
    as -> by congruence.
  cbn [term url title location price].
  split; [reflexivity |]. split.
  - subst href.
    destruct (startswith (py "http") (ad_href ad)) eqn:Hhttp; [exact Hhttp |].
    apply startswith_prefix.
    exists (py "s://www.kleinanzeigen.de" ++ ad_href ad).
    assert (Horigin : py "https://www.kleinanzeigen.de"
                      = py "http" ++ py "s://www.kleinanzeigen.de")
      by (vm_compute; reflexivity).
    rewrite Horigin, <- app_assoc. reflexivity.
  - split; [exact Hfilter |]. split; [reflexivity |]. split; [reflexivity |].
    split; [reflexivity |]. subst href.
    destruct (startswith (py "http") (ad_href ad)); [by left | by right].
Qed.

Lemma collect_hits_app
    (global_min global_max : option pyfloat) (extra : option (list str))
    (configs1 configs2 : list SearchTermConfig) :
  collect_hits source global_min global_max extra (configs1 ++ configs2)
  = collect_hits source global_min global_max extra configs1
    ++ collect_hits source global_min global_max extra configs2.
Proof.
  induction configs1 as [|cfg configs1 IH]; [reflexivity |]. simpl.
  destruct (fetch_listings_for_term source (cfg_term cfg) extra);
    [| exact IH].
  by rewrite IH, app_assoc.
Qed.

Lemma collect_hits_elem
    (global_min global_max : option pyfloat) (extra : option (list str))
    (configs : list SearchTermConfig) (listing : Listing) :
  listing ∈ collect_hits source global_min global_max extra configs ↔
  ∃ cfg listings,
    cfg ∈ configs
    ∧ fetch_listings_for_term source (cfg_term cfg) extra = Some listings
    ∧ listing ∈ price_filter (if_not_none (min_price cfg) global_min)
                             (if_not_none (max_price cfg) global_max) listings.
Proof.
  induction configs as [|cfg configs IH]; simpl.
  - split; [intros Hin; by apply elem_of_nil in Hin |].
    intros (cfg & listings & Hin & _). by apply elem_of_nil in Hin.
  - destruct (fetch_listings_for_term source (cfg_term cfg) extra)
      as [listings|] eqn:Hfetch.
    + rewrite elem_of_app, IH. split.
      * intros [Hin | (cfg' & listings' & Hin & Hrest)].
        -- exists cfg, listings. split; [apply elem_of_cons; by left | done].
        -- exists cfg', listings'. split; [apply elem_of_cons; by right | done].
      * intros (cfg' & listings' & [-> | Hin]%elem_of_cons & Hfetch' & Hl).
        -- left. rewrite Hfetch in Hfetch'. by injection Hfetch' as <-.
        -- right. eauto.
    + rewrite IH. split.
      * intros (cfg' & listings' & Hin & Hrest).
        exists cfg', listings'. split; [apply elem_of_cons; by right | done].
      * intros (cfg' & listings' & [-> | Hin]%elem_of_cons & Hfetch' & Hl).
        -- rewrite Hfetch in Hfetch'. discriminate.
        -- eauto.
Qed.
End MatchEngineFacts.

(** X6.  Every listing [fetch_listings_for_term] returns carries the
    queried term, has a URL that starts with "http" (the [href] itself, or
    the [href] behind the site's origin), a title the filter does not
    exclude for this term, and the price parsed from the price text of one
    of the source's ads, whose title and location it also carries. *)
Theorem fetch_listings_for_term_invariant :
  ∀ (R : PyRuntime) (source : CandidateSource) (t : str)
    (extra : option (list str)) (listings : list Listing),
    fetch_listings_for_term source t extra = Some listings →
    ∃ ads,
      source t = Some ads
      ∧ Forall (λ listing,
          term listing = t
          ∧ startswith (py "http") (url listing) = true
          ∧ is_blacklisted_title (title listing) t extra = false
          ∧ ∃ ad, ad ∈ ads
              ∧ title listing = ad_title ad
              ∧ location listing = ad_location ad
              ∧ parse_price (ad_price_text ad) = Some (price listing)
              ∧ (url listing = ad_href ad
                 ∨ url listing = py "https://www.kleinanzeigen.de" ++ ad_href ad))
          listings.
Proof.
  intros R source t extra listings. unfold fetch_listings_for_term.
  destruct (source t) as [ads|]; [| discriminate].
  intros [= <-]. exists ads. split; [reflexivity |].
  apply list.Forall_forall. intros listing [ad [Had Hl]]%list_elem_of_omap.
  destruct (listing_of_ad_spec t extra ad listing Hl)
    as (Ht & Hurl & Hfilter & Htitle & Hloc & Hprice & Hhref).
  split; [exact Ht |]. split; [exact Hurl |]. split; [exact Hfilter |].
  exists ad. auto.
Qed.

Lemma fetch_listings_for_term_invariant_witness :
  ∃ ads,
    laptop_source (py "laptop") = Some ads
    ∧ Forall (λ listing,
        term listing = py "laptop"
        ∧ startswith (py "http") (url listing) = true
        ∧ @is_blacklisted_title reference_runtime (title listing) (py "laptop") None
          = false
        ∧ ∃ ad, ad ∈ ads
            ∧ title listing = ad_title ad
            ∧ location listing = ad_location ad
            ∧ @parse_price reference_runtime (ad_price_text ad)
              = Some (price listing)
            ∧ (url listing = ad_href ad
               ∨ url listing = py "https://www.kleinanzeigen.de" ++ ad_href ad))
        [ laptop_listing 50 "/s-anzeige/1"; laptop_listing 150 "/s-anzeige/2";
          laptop_listing 9999 "/s-anzeige/3" ].
Proof.
  apply (fetch_listings_for_term_invariant reference_runtime laptop_source
           (py "laptop") None).
  vm_compute. reflexivity.
Defined.

(** X7.  A term whose fetch fails is skipped without a trace in the
    result: the engine returns what it returns without that term. *)
Theorem find_matching_listings_skips_failed_fetch :
  ∀ (R : PyRuntime) (source : CandidateSource)
    (before after : list (SearchTermConfig + str)) (failing : SearchTermConfig + str)
    (global_min global_max : option pyfloat) (extra : option (list str)),
    source (cfg_term (to_config failing)) = None →
    find_matching_listings source (before ++ failing :: after)
                           global_min global_max extra
    = find_matching_listings source (before ++ after)
                             global_min global_max extra.
Proof.
  intros R source before after failing global_min global_max extra Hfail.
  unfold find_matching_listings.
  assert (Hnone : fetch_listings_for_term source (cfg_term (to_config failing))
                    extra = None)
    by (unfold fetch_listings_for_term; by rewrite Hfail).
  rewrite !map_app, !collect_hits_app. simpl. rewrite Hnone. reflexivity.
Qed.

Lemma find_matching_listings_skips_failed_fetch_witness :
  @find_matching_listings reference_runtime laptop_only_source
    ([inr (py "tablet")] ++ inr (py "phone") :: [inl laptop_cfg]) None None None
  = @find_matching_listings reference_runtime laptop_only_source
      ([inr (py "tablet")] ++ [inl laptop_cfg]) None None None.
Proof.
  apply (find_matching_listings_skips_failed_fetch reference_runtime).
  reflexivity.
Defined.

(** X8.  Every listing the engine returns passed every filter: some
    TermSpec of the run has the listing's term and bounds, its own or the
    global ones, that let the listing's price pass: the price is not
    below the minimum and the maximum is not below the price, as the
    code tests them, so that a minimum that is a number is at most the
    price and a maximum that is a number at least the price (a NaN
    bound excludes nothing); the title filter does not exclude the
    listing's title for its term; its URL starts with "http". *)
Theorem find_matching_listings_sound :
  ∀ (R : PyRuntime) (source : CandidateSource)
    (search_terms : list (SearchTermConfig + str))
    (global_min global_max : option pyfloat) (extra : option (list str))
    (listing : Listing),
    listing ∈ find_matching_listings source search_terms global_min global_max extra →
    (∃ cfg, cfg ∈ map to_config search_terms
       ∧ cfg_term cfg = term listing
       ∧ (∀ m, if_not_none (min_price cfg) global_min = Some m
               → float_lt (Fin (price listing)) m = false)
       ∧ (∀ m, if_not_none (max_price cfg) global_max = Some m
               → float_lt m (Fin (price listing)) = false)
       ∧ (∀ q, if_not_none (min_price cfg) global_min = Some (Fin q)
               → (q <= price listing)%Q)
       ∧ (∀ q, if_not_none (max_price cfg) global_max = Some (Fin q)
               → (price listing <= q)%Q))
    ∧ is_blacklisted_title (title listing) (term listing) extra = false
    ∧ startswith (py "http") (url listing) = true.
Proof.
  intros R source search_terms global_min global_max extra listing Hin.
  unfold find_matching_listings in Hin.
  rewrite sorted_perm in Hin.
  eapply elem_of_sublist in Hin; [| apply dedup_loop_sublist].
  apply collect_hits_elem in Hin as (cfg & listings & Hcfg & Hfetch & Hin).
  apply price_filter_elem in Hin as (Hin & Hlow & Hhigh).
  unfold fetch_listings_for_term in Hfetch.
  destruct (source (cfg_term cfg)) as [ads|]; [| discriminate].
  injection Hfetch as <-.
  apply list_elem_of_omap in Hin as [ad [Had Hl]].
  destruct (listing_of_ad_spec _ _ _ _ Hl) as (Ht & Hurl & Hfilter & _).
  split; [| split; [by rewrite Ht | exact Hurl]].
  exists cfg. split; [exact Hcfg |]. split; [by rewrite Ht |].
  split; [exact Hlow |]. split; [exact Hhigh |]. split.
  - intros q Hq. apply float_lt_fin_ge. by apply Hlow.
  - intros q Hq. apply float_lt_fin_ge. by apply Hhigh.
Qed.

Lemma find_matching_listings_sound_witness :
  (∃ cfg, cfg ∈ map to_config [inl laptop_cfg]
     ∧ cfg_term cfg = term (laptop_listing 150 "/s-anzeige/2")
     ∧ (∀ m, if_not_none (min_price cfg) None = Some m
             → float_lt (Fin (price (laptop_listing 150 "/s-anzeige/2"))) m = false)
     ∧ (∀ m, if_not_none (max_price cfg) None = Some m
             → float_lt m (Fin (price (laptop_listing 150 "/s-anzeige/2"))) = false)
     ∧ (∀ q, if_not_none (min_price cfg) None = Some (Fin q)
             → (q <= price (laptop_listing 150 "/s-anzeige/2"))%Q)
     ∧ (∀ q, if_not_none (max_price cfg) None = Some (Fin q)
             → (price (laptop_listing 150 "/s-anzeige/2") <= q)%Q))
  ∧ @is_blacklisted_title reference_runtime
      (title (laptop_listing 150 "/s-anzeige/2"))
      (term (laptop_listing 150 "/s-anzeige/2")) None = false
  ∧ startswith (py "http") (url (laptop_listing 150 "/s-anzeige/2")) = true.
Proof.
  apply (find_matching_listings_sound reference_runtime laptop_source
           [inl laptop_cfg] None None None).
  rewrite find_matching_listings_laptop. apply elem_of_cons. by left.
Defined.

(** ** Bounds that cross *)

Lemma price_filter_crossed (lo hi : Q) (listings : list Listing) :
  (hi < lo)%Q → price_filter (Some (Fin lo)) (Some (Fin hi)) listings = [].
Proof.
  intros Hcross. induction listings as [|x listings IH]; [reflexivity |].
  simpl. destruct (Qltb (price x) lo) eqn:Hlow; [exact IH |].
  apply Qltb_ge in Hlow.
  assert (Hhigh : Qltb hi (price x) = true).
  { apply Qltb_lt. eapply Qlt_le_trans; eassumption. }
  rewrite Hhigh. exact IH.
Qed.

(** X9.  Global bounds are not validated: when no TermSpec has bounds
    of its own, a global minimum above the global maximum gives the
    empty result, whatever the source returns. *)
Theorem find_matching_listings_crossed_bounds :
  ∀ (R : PyRuntime) (source : CandidateSource)
    (search_terms : list (SearchTermConfig + str))
    (lo hi : Q) (extra : option (list str)),
    Forall (λ t, min_price (to_config t) = None
                 ∧ max_price (to_config t) = None) search_terms →
    (hi < lo)%Q →
    find_matching_listings source search_terms (Some (Fin lo)) (Some (Fin hi)) extra
    = [].
Proof.
  intros R source search_terms lo hi extra Hplain Hcross.
  unfold find_matching_listings.
  assert (Hnone : collect_hits source (Some (Fin lo)) (Some (Fin hi)) extra
                    (map to_config search_terms) = []).
  { induction Hplain as [|t search_terms [Hmin Hmax] _ IH]; [reflexivity |].
    simpl. destruct (fetch_listings_for_term source _ extra); [| exact IH].
    rewrite IH, app_nil_r, Hmin, Hmax. by apply price_filter_crossed. }
  rewrite Hnone. reflexivity.
Qed.

Lemma find_matching_listings_crossed_bounds_witness :
  @find_matching_listings reference_runtime laptop_source
    [inr (py "laptop")] (Some (Fin (300 # 1))) (Some (Fin (100 # 1))) None = [].
Proof.
  apply (find_matching_listings_crossed_bounds reference_runtime).
  - constructor; [split; reflexivity | constructor].
  - reflexivity.
Defined.

(** ** Hits with distinct URLs *)

Lemma dedup_loop_distinct (seen_urls : gset str) (all_hits : list Listing) :
  NoDup (url <$> all_hits) →
  (∀ listing, listing ∈ all_hits → url listing ∉ seen_urls) →
  dedup_loop seen_urls all_hits = all_hits.
Proof.
  revert seen_urls. induction all_hits as [|x rest IH]; intros seen_urls;
    [reflexivity |].
  rewrite fmap_cons, NoDup_cons. intros [Hx Hrest] Hfresh. simpl.
  rewrite decide_False by (apply Hfresh, elem_of_cons; by left).
  f_equal. apply IH; [exact Hrest |].
  intros listing Hin. rewrite elem_of_union, elem_of_singleton.
  intros [Heq | Hseen].
  - apply Hx. rewrite <- Heq. by apply list_elem_of_fmap_2.
  - eapply Hfresh; [apply elem_of_cons; right; exact Hin | exact Hseen].
Qed.

(** X10.  Hits whose URLs are pairwise distinct all survive
    deduplication: the output is a rearrangement of the hits. *)
Theorem distinct_urls_all_kept :
  ∀ all_hits : list Listing,
    NoDup (url <$> all_hits) →
    dedup_loop ∅ all_hits = all_hits
    ∧ sorted Qltb price (dedup_loop ∅ all_hits) ≡ₚ all_hits.
Proof.
  intros all_hits Hdistinct.
  assert (Hsame : dedup_loop ∅ all_hits = all_hits).
  { apply dedup_loop_distinct; [exact Hdistinct |]. intros ? _. set_solver. }
  split; [exact Hsame |]. rewrite Hsame. apply sorted_perm.
Qed.

Lemma distinct_urls_all_kept_witness :
  dedup_loop ∅ [laptop_listing 150 "/s-anzeige/2"; laptop_listing 50 "/s-anzeige/1"]
  = [laptop_listing 150 "/s-anzeige/2"; laptop_listing 50 "/s-anzeige/1"]
  ∧ sorted Qltb price
      (dedup_loop ∅ [laptop_listing 150 "/s-anzeige/2";
                     laptop_listing 50 "/s-anzeige/1"])
    ≡ₚ [laptop_listing 150 "/s-anzeige/2"; laptop_listing 50 "/s-anzeige/1"].
Proof.
  apply distinct_urls_all_kept.
  rewrite !fmap_cons, fmap_nil. apply NoDup_cons. split; [| apply NoDup_singleton].
  intros Hin. apply list_elem_of_singleton in Hin. vm_compute in Hin.
  discriminate.
Defined.


(** ** The order of the saved URLs *)

Lemma str_ltb_asym (a b : str) : str_ltb a b = true → str_ltb b a = false.
Proof.
  revert b. induction a as [|x a IH]; intros [|y b]; simpl; try done.
  rewrite orb_true_iff, andb_true_iff, orb_false_iff, andb_false_iff.
  rewrite N.ltb_lt, N.eqb_eq, N.ltb_ge, N.eqb_neq.
  intros [Hlt | [-> Hrest]].
  - split; [lia | left; lia].
  - split; [lia | right; by apply IH].
Qed.

Lemma str_ltb_le_trans (a b c : str) :
  str_ltb b a = false → str_ltb c b = false → str_ltb c a = false.
Proof.
  revert b c. induction a as [|x a IH]; intros [|y b] [|z c]; simpl; try done.
  rewrite !orb_false_iff, !andb_false_iff, !N.ltb_ge, !N.eqb_neq.
  intros [Hyx Hba] [Hzy Hcb]. split; [lia |].
  destruct (N.eq_dec z x) as [-> | Hne]; [| by left]. right.
  assert (y = x) as -> by lia.
  destruct Hba as [? | Hba]; [done |]. destruct Hcb as [? | Hcb]; [done |].
  by eapply IH.
Qed.

Lemma str_ltb_antisym (a b : str) :
  str_ltb b a = false → str_ltb a b = false → a = b.
Proof.
  revert b. induction a as [|x a IH]; intros [|y b]; simpl; try done.
  rewrite !orb_false_iff, !andb_false_iff, !N.ltb_ge, !N.eqb_neq.
  intros [Hyx Hba] [Hxy Hab].
  assert (x = y) as -> by lia. f_equal.
  destruct Hba as [? | Hba]; [done |]. destruct Hab as [? | Hab]; [done |].
  by apply IH.
Qed.

Lemma sorted_urls_ascending (l : list str) :
  StronglySorted (λ a b, str_ltb b a = false) (sorted str_ltb id l).
Proof.
  apply (sorted_ascending str_ltb id (λ a b, str_ltb b a = false)).
  - intros a b. apply str_ltb_asym.
  - intros a b Hge. exact Hge.
  - intros a b c. apply str_ltb_le_trans.
Qed.

Lemma ascending_distinct_strict (l : list str) :
  StronglySorted (λ a b, str_ltb b a = false) l → NoDup l →
  StronglySorted (λ a b, str_ltb a b = true) l.
Proof.
  induction 1 as [|x l Hl IH Hall]; [constructor |].
  intros [Hx Hnodup]%NoDup_cons. constructor; [by apply IH |].
  apply list.Forall_forall. intros y Hy.
  rewrite list.Forall_forall in Hall. specialize (Hall y Hy). simpl in Hall.
  destruct (str_ltb x y) eqn:Hxy; [reflexivity |].
  assert (x = y) by (by apply str_ltb_antisym). subst y. contradiction.
Qed.

(** X11.  [save_seen_urls] writes a canonical text.  The list it
    encodes holds exactly the URLs of the set, in strictly ascending
    order of their code points, and does not depend on the order in
    which the set is enumerated: sorting any enumeration gives it. *)
Theorem save_seen_urls_canonical :
  ∀ (R : PyRuntime) (urls : gset str) (d : Disk),
    mkdir_raises d = false → write_raises d = None →
    ∃ saved : list str,
      log_of (save_seen_urls urls d)
      = [EvMkdir; EvWriteText (json_dumps (JList (JStr <$> saved)))]
      ∧ StronglySorted (λ a b, str_ltb a b = true) saved
      ∧ (∀ u, u ∈ saved ↔ u ∈ urls)
      ∧ (∀ enumeration, enumeration ≡ₚ elements urls →
           sorted str_ltb id enumeration = saved).
Proof.
  intros R urls d Hmkdir Hwrite.
  exists (sorted str_ltb id (elements urls)).
  rewrite (save_seen_urls_ok urls d Hmkdir Hwrite).
  split; [reflexivity |].
  assert (Hperm : sorted str_ltb id (elements urls) ≡ₚ elements urls)
    by apply sorted_perm.
  split; [| split].
  - apply ascending_distinct_strict; [apply sorted_urls_ascending |].
    rewrite Hperm. apply NoDup_elements.
  - intros u. rewrite Hperm. apply elem_of_elements.
  - intros enumeration Henum.
    apply (StronglySorted_unique_strong (λ a b, str_ltb b a = false)).
    + intros x1 x2 _ _ H12 H21. by apply str_ltb_antisym.
    + apply sorted_urls_ascending.
    + apply sorted_urls_ascending.
    + by rewrite !sorted_perm.
Qed.

Lemma save_seen_urls_canonical_witness :
  ∃ saved : list str,
    log_of (@save_seen_urls reference_runtime
              {[ py "https://b/2"; py "https://a/1" ]} missing_disk)
    = [EvMkdir; EvWriteText (Reference.dumps (JList (JStr <$> saved)))]
    ∧ StronglySorted (λ a b, str_ltb a b = true) saved
    ∧ (∀ u, u ∈ saved ↔ u ∈ ({[ py "https://b/2"; py "https://a/1" ]} : gset str))
    ∧ (∀ enumeration,
         enumeration ≡ₚ elements ({[ py "https://b/2"; py "https://a/1" ]} : gset str) →
         sorted str_ltb id enumeration = saved).
Proof.
  apply (save_seen_urls_canonical reference_runtime); reflexivity.
Defined.

(** ** Saving and loading *)

Section SaveFacts.
Context `{PyRuntime}.

Lemma save_seen_urls_cases (urls : gset str) (d : Disk) :
  save_seen_urls urls d =
  if mkdir_raises d then (None, d, [])
  else match write_raises d with
       | None =>
           (Some (),
            {| state_file := Content (saved_text urls);
               mkdir_raises := mkdir_raises d; write_raises := write_raises d |},
            [EvMkdir; EvWriteText (saved_text urls)])
       | Some st =>
           (Some (),
            {| state_file := st; mkdir_raises := mkdir_raises d;
               write_raises := write_raises d |},
            [EvMkdir; EvWarn WriteFailed])
       end.
Proof.
  unfold save_seen_urls, mbind, IO_bind, mkdir, try_write_text, mret, IO_ret,
    emit, saved_text.
  destruct (mkdir_raises d) eqn:Hmkdir; [reflexivity |].
  destruct (write_raises d) eqn:Hwrite; simpl; rewrite ?Hmkdir, ?Hwrite;
    reflexivity.
Qed.

Lemma filter_new_listings_cases (listings : list Listing) (d : Disk)
    (seen : gset str) :
  value_of (load_seen_urls d) = Some seen →
  let new_listings := filter (λ listing, url listing ∉ seen) listings in
  let merged := seen ∪ list_to_set (url <$> new_listings) in
  filter_new_listings listings d =
  match new_listings with
  | [] => (Some [], d, log_of (load_seen_urls d))
  | _ =>
      if mkdir_raises d then (None, d, log_of (load_seen_urls d))
      else match write_raises d with
           | None =>
               (Some new_listings,
                {| state_file := Content (saved_text merged);
                   mkdir_raises := mkdir_raises d;
                   write_raises := write_raises d |},
                log_of (load_seen_urls d)
                ++ [EvMkdir; EvWriteText (saved_text merged)])
           | Some st =>
               (Some new_listings,
                {| state_file := st; mkdir_raises := mkdir_raises d;
                   write_raises := write_raises d |},
                log_of (load_seen_urls d) ++ [EvMkdir; EvWarn WriteFailed])
           end
  end.
Proof.
  intros Hseen new_listings merged.
  pose proof (load_seen_urls_outcome d seen Hseen) as Hload.
  set (w := log_of (load_seen_urls d)) in *.
  unfold filter_new_listings, mbind, IO_bind. rewrite Hload.
  fold new_listings.
  destruct new_listings as [|x new_listings'] eqn:Hnew.
  { unfold mret, IO_ret. rewrite app_nil_r. reflexivity. }
  fold merged. rewrite (save_seen_urls_cases merged d).
  destruct (mkdir_raises d) eqn:Hmkdir; [by rewrite app_nil_r |].
  destruct (write_raises d) eqn:Hwrite; unfold mret, IO_ret;
    rewrite app_nil_r; reflexivity.
Qed.

Lemma run_once_notify_cases
    (enable_email enable_ntfy : bool) (source : CandidateSource)
    (search_terms : list (SearchTermConfig + str))
    (min_price0 max_price0 : option pyfloat) (extra : option (list str)) (d : Disk) :
  let all_hits :=
    find_matching_listings source search_terms min_price0 max_price0 extra in
  run_once true enable_email enable_ntfy source search_terms
           min_price0 max_price0 extra d =
  match filter_new_listings all_hits d with
  | (None, d1, log1) => (None, d1, log1)
  | (Some [], d1, log1) => (Some (), d1, log1 ++ [EvNoNewListings])
  | (Some new_hits, d1, log1) =>
      (Some (), d1,
       log1 ++ (if enable_email then [EvNotify Email new_hits] else [])
            ++ (if enable_ntfy then [EvNotify Ntfy new_hits] else []))
  end.
Proof.
  intros all_hits. unfold run_once, mbind, IO_bind.
  change (negb true) with false. cbv beta iota. fold all_hits.
  destruct (filter_new_listings all_hits d) as [[[[|x new_hits]|] d1] log1];
    [reflexivity | | reflexivity].
  destruct enable_email, enable_ntfy; reflexivity.
Qed.
End SaveFacts.

(** X12.  Saving a set and loading it again gives the set back, without
    a warning, when the directory can be made, the write does not fail
    and the codec reads back the list it wrote. *)
Theorem save_then_load :
  ∀ (R : PyRuntime) (urls : gset str) (d : Disk),
    mkdir_raises d = false → write_raises d = None →
    json_loads (saved_text urls)
    = Decoded (JList (JStr <$> sorted str_ltb id (elements urls))) →
    value_of (save_seen_urls urls d) = Some ()
    ∧ value_of (load_seen_urls (disk_of (save_seen_urls urls d))) = Some urls
    ∧ log_of (load_seen_urls (disk_of (save_seen_urls urls d))) = [].
Proof.
  intros R urls d Hmkdir Hwrite Hcodec.
  rewrite (save_seen_urls_ok urls d Hmkdir Hwrite).
  split; [reflexivity |]. unfold disk_of at 1 2. simpl.
  split; [by apply load_saved |].
  rewrite load_seen_urls_cases. simpl. rewrite Hcodec. reflexivity.
Qed.

Lemma save_then_load_witness :
  value_of (@save_seen_urls reference_runtime
              {[ py "https://b/2"; py "https://a/1" ]} missing_disk) = Some ()
  ∧ value_of (@load_seen_urls reference_runtime
                (disk_of (@save_seen_urls reference_runtime
                            {[ py "https://b/2"; py "https://a/1" ]} missing_disk)))
    = Some {[ py "https://b/2"; py "https://a/1" ]}
  ∧ log_of (@load_seen_urls reference_runtime
              (disk_of (@save_seen_urls reference_runtime
                          {[ py "https://b/2"; py "https://a/1" ]} missing_disk)))
    = [].
Proof.
  apply (save_then_load reference_runtime); vm_compute; reflexivity.
Defined.


(** ** What the inter-run filter returns *)



(** ** Runs that cannot save *)

(** X14.  In notify mode, when there are new listings and the state
    directory cannot be made, the run raises before anything is handed
    to a sink, and the disk is left as it was. *)
Theorem run_once_mkdir_failure :
  ∀ (R : PyRuntime) (enable_email enable_ntfy : bool)
    (source : CandidateSource) (search_terms : list (SearchTermConfig + str))
    (min_price0 max_price0 : option pyfloat) (extra : option (list str))
    (d : Disk) (seen : gset str),
    let run := run_once true enable_email enable_ntfy source search_terms
                        min_price0 max_price0 extra in
    let all_hits :=
      find_matching_listings source search_terms min_price0 max_price0 extra in
    value_of (load_seen_urls d) = Some seen →
    filter (λ listing, url listing ∉ seen) all_hits ≠ [] →
    mkdir_raises d = true →
    value_of (run d) = None
    ∧ disk_of (run d) = d
    ∧ (∀ sink listings, EvNotify sink listings ∉ log_of (run d)).
Proof.
  intros R enable_email enable_ntfy source search_terms min_price0 max_price0
    extra d seen run all_hits Hseen Hnew Hmkdir.
  unfold run. rewrite run_once_notify_cases. fold all_hits.
  rewrite (filter_new_listings_cases all_hits d seen Hseen).
  destruct (filter (λ listing, url listing ∉ seen) all_hits) as [|x new_hits];
    [congruence |].
  rewrite Hmkdir. split; [reflexivity |]. split; [reflexivity |].
  intros sink listings Hin. unfold log_of at 1 in Hin. simpl in Hin.
  apply load_seen_urls_only_warns in Hin as [w Hw]. discriminate.
Qed.

Lemma run_once_mkdir_failure_witness :
  let run := @run_once reference_runtime true true true laptop_source
               [inl laptop_cfg] None None None in
  value_of (run readonly_disk) = None
  ∧ disk_of (run readonly_disk) = readonly_disk
  ∧ (∀ sink listings, EvNotify sink listings ∉ log_of (run readonly_disk)).
Proof.
  apply (run_once_mkdir_failure reference_runtime true true laptop_source
           [inl laptop_cfg] None None None readonly_disk ∅).
  - reflexivity.
  - vm_compute. discriminate.
  - reflexivity.
Defined.


(** X15.  In notify mode, when the write of the state file fails, the
    run still completes and hands the new listings to every enabled
    sink; the failure is only a warning.  When the failed write leaves
    the file as it was, the disk is unchanged, so that the next run over
    the same candidates does exactly the same again. *)
Theorem run_once_write_failure :
  ∀ (R : PyRuntime) (enable_email enable_ntfy : bool)
    (source : CandidateSource) (search_terms : list (SearchTermConfig + str))
    (min_price0 max_price0 : option pyfloat) (extra : option (list str))
    (d : Disk) (seen : gset str) (st : file_state),
    let run := run_once true enable_email enable_ntfy source search_terms
                        min_price0 max_price0 extra in
    let all_hits :=
      find_matching_listings source search_terms min_price0 max_price0 extra in
    let new_hits := filter (λ listing, url listing ∉ seen) all_hits in
    value_of (load_seen_urls d) = Some seen →
    new_hits ≠ [] →
    mkdir_raises d = false →
    write_raises d = Some st →
    value_of (run d) = Some ()
    ∧ state_file (disk_of (run d)) = st
    ∧ EvWarn WriteFailed ∈ log_of (run d)
    ∧ (enable_email = true → EvNotify Email new_hits ∈ log_of (run d))
    ∧ (enable_ntfy = true → EvNotify Ntfy new_hits ∈ log_of (run d))
    ∧ (st = state_file d → run (disk_of (run d)) = run d).
Proof.
  intros R enable_email enable_ntfy source search_terms min_price0 max_price0
    extra d seen st run all_hits new_hits Hseen Hnew Hmkdir Hwrite.
  assert (Hrun : run d =
    (Some (),
     {| state_file := st; mkdir_raises := mkdir_raises d;
        write_raises := write_raises d |},
     (log_of (load_seen_urls d) ++ [EvMkdir; EvWarn WriteFailed])
     ++ (if enable_email then [EvNotify Email new_hits] else [])
     ++ (if enable_ntfy then [EvNotify Ntfy new_hits] else []))).
  { unfold run. rewrite run_once_notify_cases. fold all_hits.
    rewrite (filter_new_listings_cases all_hits d seen Hseen).
    fold new_hits. destruct new_hits as [|x new_hits']; [congruence |].
    rewrite Hmkdir, Hwrite. reflexivity. }
  split; [by rewrite Hrun |]. split; [by rewrite Hrun |].
  split; [| split; [| split]].
  - rewrite Hrun. unfold log_of. cbn [snd].
    rewrite !elem_of_app, !elem_of_cons. auto.
  - intros ->. rewrite Hrun. unfold log_of. cbn [snd].
    rewrite !elem_of_app, !elem_of_cons. auto.
  - intros ->. rewrite Hrun. unfold log_of. cbn [snd].
    rewrite !elem_of_app, !elem_of_cons. auto.
  - intros ->. assert (disk_of (run d) = d) as ->; [| reflexivity].
    rewrite Hrun. unfold disk_of. cbn [fst snd]. by destruct d.
Qed.

Lemma run_once_write_failure_witness :
  let run := @run_once reference_runtime true true true laptop_source
               [inl laptop_cfg] None None None in
  value_of (run full_disk) = Some ()
  ∧ state_file (disk_of (run full_disk)) = Missing
  ∧ EvWarn WriteFailed ∈ log_of (run full_disk)
  ∧ (true = true →
     EvNotify Email
       (filter (λ listing, url listing ∉ (∅ : gset str))
          (@find_matching_listings reference_runtime laptop_source
             [inl laptop_cfg] None None None))
       ∈ log_of (run full_disk))
  ∧ (true = true →
     EvNotify Ntfy
       (filter (λ listing, url listing ∉ (∅ : gset str))
          (@find_matching_listings reference_runtime laptop_source
             [inl laptop_cfg] None None None))
       ∈ log_of (run full_disk))
  ∧ (Missing = state_file full_disk → run (disk_of (run full_disk)) = run full_disk).
Proof.
  refine (run_once_write_failure reference_runtime true true laptop_source
            [inl laptop_cfg] None None None full_disk ∅ Missing _ _ _ _).
  - reflexivity.
  - vm_compute. discriminate.
  - reflexivity.
  - reflexivity.
Defined.

(** X16.  In notify mode with both sinks disabled, new listings are
    still recorded as seen: the run writes the merged set and hands
    nothing to any sink. *)
Theorem run_once_sinks_disabled :
  ∀ (R : PyRuntime) (source : CandidateSource)
    (search_terms : list (SearchTermConfig + str))
    (min_price0 max_price0 : option pyfloat) (extra : option (list str))
    (d : Disk) (seen : gset str),
    let run := run_once true false false source search_terms
                        min_price0 max_price0 extra in
    let all_hits :=
      find_matching_listings source search_terms min_price0 max_price0 extra in
    let new_hits := filter (λ listing, url listing ∉ seen) all_hits in
    value_of (load_seen_urls d) = Some seen →
    new_hits ≠ [] →
    mkdir_raises d = false →
    write_raises d = None →
    value_of (run d) = Some ()
    ∧ state_file (disk_of (run d))
      = Content (saved_text (seen ∪ list_to_set (url <$> new_hits)))
    ∧ (∀ sink listings, EvNotify sink listings ∉ log_of (run d)).
Proof.
  intros R source search_terms min_price0 max_price0 extra d seen run all_hits
    new_hits Hseen Hnew Hmkdir Hwrite.
  unfold run. rewrite run_once_notify_cases. fold all_hits.
  rewrite (filter_new_listings_cases all_hits d seen Hseen).
  fold new_hits. destruct new_hits as [|x new_hits'] eqn:Hhits; [congruence |].
  rewrite Hmkdir, Hwrite.
  unfold value_of, disk_of, log_of. cbn [fst snd state_file].
  split; [reflexivity |]. split; [reflexivity |].
  intros sink listings. rewrite !app_nil_r, elem_of_app, !elem_of_cons, elem_of_nil.
  intros [Hin | [Hin | [Hin | []]]]; try discriminate.
  apply load_seen_urls_only_warns in Hin as [w Hw]. discriminate.
Qed.

Lemma run_once_sinks_disabled_witness :
  let run := @run_once reference_runtime true false false laptop_source
               [inl laptop_cfg] None None None in
  value_of (run missing_disk) = Some ()
  ∧ state_file (disk_of (run missing_disk))
    = Content (@saved_text reference_runtime
                 (∅ ∪ list_to_set
                        (url <$> filter (λ listing, url listing ∉ (∅ : gset str))
                                   (@find_matching_listings reference_runtime
                                      laptop_source [inl laptop_cfg]
                                      None None None))))
  ∧ (∀ sink listings, EvNotify sink listings ∉ log_of (run missing_disk)).
Proof.
  refine (run_once_sinks_disabled reference_runtime laptop_source
            [inl laptop_cfg] None None None missing_disk ∅ _ _ _ _).
  - reflexivity.
  - vm_compute. discriminate.
  - reflexivity.
  - reflexivity.
Defined.


(** ** Push notification header *)

Lemma sanitize_header_ascii (value : str) :
  Forall (λ c, c < 128) (sanitize_header value).
Proof.
  unfold sanitize_header. apply List.Forall_map, list.Forall_forall.
  intros c _. destruct (c <? 128) eqn:Hc; [by apply N.ltb_lt | lia].
Qed.

Lemma sanitize_header_fmap (value : str) :
  sanitize_header value = (λ c, if c <? 128 then c else 63) <$> value.
Proof. reflexivity. Qed.

(** The [Title] header, by cases on the length of the unsanitised
    title. *)
Lemma ntfy_title_cases (format_0f : Q → str) (listing : Listing) :
  let raw := format_0f (price listing) ++ py " € " ++ title listing in
  ((length raw ≤ 80)%nat →
   ntfy_title format_0f listing = (λ c, if c <? 128 then c else 63) <$> raw)
  ∧ ((80 < length raw)%nat →
     ntfy_title format_0f listing
     = ((λ c, if c <? 128 then c else 63) <$> take 77 raw) ++ py "...").
Proof.
  intros raw. unfold ntfy_title. fold raw. split; intros Hlen.
  - apply Nat.ltb_ge in Hlen. rewrite Hlen. reflexivity.
  - apply Nat.ltb_lt in Hlen. rewrite Hlen.
    rewrite sanitize_header_fmap, fmap_app. reflexivity.
Qed.

(** X17.  With an endpoint [notify_ntfy] posts one request per listing,
    in order, to that endpoint; without one it posts none.  The body of a
    request is the listing's URL.  Its [Title] header is made from the
    price, the euro sign and the listing's title: when this text has at
    most 80 characters the header is the text, and when it is longer the
    header is its first 77 characters and three dots; in both cases every
    character that is not ASCII has become a question mark, so that the
    euro sign, when it lies within the first 77 characters, reads as a
    question mark.  Hence a header has at most 80 characters, all of them
    ASCII, and holds no euro sign. *)
Theorem notify_ntfy_requests_wf :
  ∀ (format_0f : Q → str) (env_url env_topic : option str)
    (listings : list Listing),
    let requests := notify_ntfy_requests format_0f env_url env_topic listings in
    let raw := λ listing : Listing,
      format_0f (price listing) ++ py " € " ++ title listing in
    let ascii := λ c : cp, if c <? 128 then c else 63 in
    Forall (λ request, (length request.1.2 ≤ 80)%nat
                       ∧ Forall (λ c, c < 128) request.1.2
                       ∧ 8364 ∉ request.1.2) requests
    ∧ (ntfy_endpoint env_url env_topic = None → requests = [])
    ∧ (∀ endpoint, ntfy_endpoint env_url env_topic = Some endpoint →
         snd <$> requests = url <$> listings
         ∧ Forall (λ request, request.1.1 = endpoint) requests
         ∧ Forall2 (λ listing request,
              request.1.1 = endpoint
              ∧ request.2 = url listing
              ∧ ((length (raw listing) ≤ 80)%nat →
                 request.1.2 = ascii <$> raw listing)
              ∧ ((80 < length (raw listing))%nat →
                 request.1.2 = (ascii <$> take 77 (raw listing)) ++ py "...")
              ∧ ((length (format_0f (price listing)) + 1 < 77)%nat →
                 raw listing !! (length (format_0f (price listing)) + 1)%nat
                 = Some 8364
                 ∧ request.1.2 !! (length (format_0f (price listing)) + 1)%nat
                   = Some 63))
            listings requests).
Proof.
  intros format_0f env_url env_topic listings requests raw ascii.
  assert (Htitle : ∀ listing,
            (length (ntfy_title format_0f listing) ≤ 80)%nat
            ∧ Forall (λ c, c < 128) (ntfy_title format_0f listing)
            ∧ 8364 ∉ ntfy_title format_0f listing).
  { intros listing. unfold ntfy_title.
    set (raw0 := format_0f (price listing) ++ py " € " ++ title listing).
    split; [| split].
    - unfold sanitize_header. rewrite length_map.
      destruct (80 <? length raw0)%nat eqn:Hlong.
      + apply Nat.ltb_lt in Hlong. rewrite length_app, length_take.
        change (length (py "...")) with 3%nat. lia.
      + by apply Nat.ltb_ge in Hlong.
    - apply sanitize_header_ascii.
    - intros Hin.
      pose proof (sanitize_header_ascii
                    (if (80 <? length raw0)%nat then take 77 raw0 ++ py "..."
                     else raw0)) as Hascii.
      rewrite list.Forall_forall in Hascii. specialize (Hascii _ Hin). lia. }
  assert (Heuro : ∀ listing,
            raw listing !! (length (format_0f (price listing)) + 1)%nat
            = Some 8364).
  { intros listing. unfold raw.
    rewrite lookup_app_r by lia.
    replace (length (format_0f (price listing)) + 1
             - length (format_0f (price listing)))%nat with 1%nat by lia.
    reflexivity. }
  assert (Hone : ∀ (endpoint : str) (listing : Listing),
            let request := (endpoint, ntfy_title format_0f listing, url listing) in
            request.1.1 = endpoint
            ∧ request.2 = url listing
            ∧ ((length (raw listing) ≤ 80)%nat →
               request.1.2 = ascii <$> raw listing)
            ∧ ((80 < length (raw listing))%nat →
               request.1.2 = (ascii <$> take 77 (raw listing)) ++ py "...")
            ∧ ((length (format_0f (price listing)) + 1 < 77)%nat →
               raw listing !! (length (format_0f (price listing)) + 1)%nat
               = Some 8364
               ∧ request.1.2 !! (length (format_0f (price listing)) + 1)%nat
                 = Some 63)).
  { intros endpoint listing request. subst request. cbn [fst snd].
    destruct (ntfy_title_cases format_0f listing) as [Hshort Hlong].
    fold (raw listing) in Hshort, Hlong. fold ascii in Hshort, Hlong.
    split; [reflexivity |]. split; [reflexivity |].
    split; [exact Hshort |]. split; [exact Hlong |].
    intros Hpos. split; [apply Heuro |].
    destruct (le_lt_dec (length (raw listing)) 80) as [Hle | Hgt].
    - rewrite (Hshort Hle), list_lookup_fmap, Heuro. reflexivity.
    - rewrite (Hlong Hgt), lookup_app_l
        by (rewrite length_fmap, length_take; lia).
      rewrite list_lookup_fmap, lookup_take_lt by lia.
      rewrite Heuro. reflexivity. }
  subst requests. unfold notify_ntfy_requests.
  destruct (ntfy_endpoint env_url env_topic) as [endpoint|].
  - destruct listings as [|x listings].
    + split; [constructor |]. split; [done |].
      intros e _. split; [reflexivity |]. split; constructor.
    + split; [| split; [discriminate |]].
      * apply List.Forall_map, list.Forall_forall. intros listing _. apply Htitle.
      * intros e [= <-]. split; [| split].
        -- generalize (x :: listings). intros l.
           induction l as [|y l IH]; [reflexivity |].
           cbn [map]. rewrite !fmap_cons. cbn [snd]. f_equal. exact IH.
        -- apply List.Forall_map, list.Forall_forall. by intros.
        -- generalize (x :: listings). intros l.
           induction l as [|y l IH]; [constructor |].
           cbn [map]. constructor; [apply Hone | exact IH].
  - destruct listings; (split; [constructor |]); (split; [done | discriminate]).
Qed.

(** ** Command line *)

Section MainFacts.
Context `{PyRuntime}.

Lemma parse_search_terms_ok (args : list str) (cfgs : list SearchTermConfig) :
  parse_search_terms args = Ok cfgs ↔
  ∃ parts, Forall2 (λ arg part, parse_search_term_arg arg = Ok part) args parts
           ∧ cfgs = concat parts.
Proof.
  revert cfgs. induction args as [|arg args IH]; intros cfgs; simpl.
  - split.
    + intros [= <-]. exists []. split; [constructor | reflexivity].
    + intros (parts & Hall & ->). by inversion Hall.
  - destruct (parse_search_term_arg arg) as [part|msg] eqn:Harg.
    + destruct (parse_search_terms args) as [more|msg] eqn:Hrest.
      * split.
        -- intros [= <-]. destruct (proj1 (IH more) eq_refl) as (parts & Hall & ->).
           exists (part :: parts). split; [by constructor | reflexivity].
        -- intros (parts & Hall & ->). inversion Hall as [|? p ? ps Hp Hps]; subst.
           rewrite Harg in Hp. injection Hp as <-.
           assert (Ok more = Ok (concat ps)) as [= ->]
             by (apply IH; eauto).
           reflexivity.
      * split; [discriminate |].
        intros (parts & Hall & ->). inversion Hall as [|? p ? ps Hp Hps]; subst.
        assert (ValueError msg = Ok (concat ps)) by (apply IH; eauto).
        discriminate.
    + split; [discriminate |].
      intros (parts & Hall & ->). inversion Hall as [|? p ? ps Hp Hps]; subst.
      rewrite Harg in Hp. discriminate.
Qed.

Lemma parse_search_terms_error (args : list str) (msg : str) :
  parse_search_terms args = ValueError msg ↔
  ∃ before bad after,
    args = before ++ bad :: after
    ∧ Forall (λ arg, ∃ part, parse_search_term_arg arg = Ok part) before
    ∧ parse_search_term_arg bad = ValueError msg.
Proof.
  induction args as [|arg args IH]; simpl.
  - split; [discriminate |].
    intros (before & bad & after & Heq & _). by destruct before.
  - destruct (parse_search_term_arg arg) as [part|msg'] eqn:Harg.
    + destruct (parse_search_terms args) as [more|msg'] eqn:Hrest.
      * split; [discriminate |].
        intros (before & bad & after & Heq & Hbefore & Hbad).
        destruct before as [|b before]; simpl in Heq; injection Heq as -> ->.
        -- rewrite Harg in Hbad. discriminate.
        -- apply Forall_cons in Hbefore as [_ Hbefore].
           assert (Ok more = ValueError msg) by (apply IH; eauto 6).
           discriminate.
      * split.
        -- intros [= ->]. destruct (proj1 IH eq_refl)
             as (before & bad & after & -> & Hbefore & Hbad).
           exists (arg :: before), bad, after.
           split; [reflexivity |]. split; [| exact Hbad].
           constructor; [eauto | exact Hbefore].
        -- intros (before & bad & after & Heq & Hbefore & Hbad).
           destruct before as [|b before]; simpl in Heq; injection Heq as -> ->.
           ++ rewrite Harg in Hbad. discriminate.
           ++ apply Forall_cons in Hbefore as [_ Hbefore].
              apply IH. eauto 6.
    + split.
      * intros [= ->]. exists [], arg, args.
        split; [reflexivity |]. split; [constructor | exact Harg].
      * intros (before & bad & after & Heq & Hbefore & Hbad).
        destruct before as [|b before]; simpl in Heq; injection Heq as -> ->.
        -- rewrite Harg in Hbad. by injection Hbad as ->.
        -- apply Forall_cons in Hbefore as [[part Hpart] _].
           rewrite Harg in Hpart. discriminate.
Qed.
End MainFacts.

(** X18.  The positional arguments are all parsed before anything runs.
    [main] runs exactly when there is at least one argument and every
    argument parses, and then on the TermSpecs of all arguments, in
    order.  Otherwise it stops with a usage error: for no argument at
    all, or with the message of the first argument that does not
    parse. *)
Theorem main_all_or_nothing :
  ∀ (R : PyRuntime) (unlink_raises : bool) (source : CandidateSource)
    (args : Args) (d : Disk),
    (arg_search_terms args = [] →
     main unlink_raises source args d
     = UsageError (py "at least one search term is required"))
    ∧ (∀ before bad after msg,
         arg_search_terms args = before ++ bad :: after →
         Forall (λ arg, ∃ part, parse_search_term_arg arg = Ok part) before →
         parse_search_term_arg bad = ValueError msg →
         main unlink_raises source args d = UsageError msg)
    ∧ (∀ cleared outcome,
         main unlink_raises source args d = Ran cleared outcome →
         arg_search_terms args ≠ []
         ∧ ∃ parts,
             Forall2 (λ arg part, parse_search_term_arg arg = Ok part)
                     (arg_search_terms args) parts
             ∧ ∃ d1,
                 outcome
                 = run_once (arg_notify args) (negb (arg_no_email args))
                            (negb (arg_no_ntfy args)) source
                            (inl <$> concat parts)
                            (arg_min_price args) (arg_max_price args)
                            (arg_blacklist args) d1).
Proof.
  intros R unlink_raises source args d. unfold main.
  split; [by intros -> |]. split.
  - intros before bad after msg Hargs Hbefore Hbad.
    assert (Herr : parse_search_terms (arg_search_terms args) = ValueError msg)
      by (apply parse_search_terms_error; eauto 6).
    rewrite Herr. destruct (arg_search_terms args); [by destruct before | reflexivity].
  - intros cleared outcome.
    destruct (arg_search_terms args) as [|a rest] eqn:Hargs; [discriminate |].
    destruct (parse_search_terms (a :: rest)) as [cfgs|msg] eqn:Hparse;
      [| discriminate].
    apply parse_search_terms_ok in Hparse as (parts & Hall & ->).
    intros Hran. split; [discriminate |]. exists parts. split; [exact Hall |].
    destruct (arg_clear_seen args).
    + destruct (clear_seen unlink_raises d) as [d1 c].
      injection Hran as _ <-. by exists d1.
    + injection Hran as _ <-. by exists d.
Qed.

Lemma main_all_or_nothing_witness :
  @main reference_runtime false laptop_source bad_args missing_disk
  = UsageError
      (py "Invalid price range '20-10' in search term 'term:20-10': max < min.").
Proof.
  destruct (main_all_or_nothing reference_runtime false laptop_source bad_args
              missing_disk) as (_ & Herror & _).
  apply (Herror [py "laptop:100-300"] (py "term:20-10") [py "a| |b"]).
  - reflexivity.
  - constructor; [| constructor]. eexists. vm_compute. reflexivity.
  - vm_compute. reflexivity.
Defined.

Lemma filter_nothing_seen (seen : gset str) (listings : list Listing) :
  seen = ∅ → filter (λ listing, url listing ∉ seen) listings = listings.
Proof.
  intros ->. induction listings as [|x listings IH]; [reflexivity |].
  rewrite filter_cons, decide_True by set_solver. by rewrite IH.
Qed.

(** X19.  With [--clear-seen] and [--notify], when the state file can
    be removed and then saved, every matched listing is new, whatever
    the state file held: [main] runs, and all matched listings are
    handed to each enabled sink. *)
Theorem main_clear_seen_notifies_all :
  ∀ (R : PyRuntime) (source : CandidateSource) (args : Args) (d : Disk)
    (cfgs : list SearchTermConfig),
    let all_hits :=
      find_matching_listings source (inl <$> cfgs) (arg_min_price args)
                             (arg_max_price args) (arg_blacklist args) in
    arg_search_terms args ≠ [] →
    parse_search_terms (arg_search_terms args) = Ok cfgs →
    arg_clear_seen args = true →
    arg_notify args = true →
    mkdir_raises d = false →
    write_raises d = None →
    all_hits ≠ [] →
    ∃ cleared outcome,
      main false source args d = Ran (Some cleared) outcome
      ∧ cleared ≠ ClearFailed
      ∧ value_of outcome = Some ()
      ∧ (arg_no_email args = false → EvNotify Email all_hits ∈ log_of outcome)
      ∧ (arg_no_ntfy args = false → EvNotify Ntfy all_hits ∈ log_of outcome)
      ∧ state_file (disk_of outcome)
        = Content (saved_text (list_to_set (url <$> all_hits))).
Proof.
  intros R source args d cfgs all_hits Hargs Hparse Hclear Hnotify Hmkdir Hwrite
    Hhits.
  unfold main. rewrite Hparse, Hclear, Hnotify.
  destruct (arg_search_terms args) as [|a rest]; [congruence |].
  set (d1 := {| state_file := Missing; mkdir_raises := mkdir_raises d;
                write_raises := write_raises d |}).
  assert (Hcleared : ∃ cleared, cleared ≠ ClearFailed ∧
            (clear_seen false d = (d, cleared) ∧ state_file d = Missing
             ∨ clear_seen false d = (d1, cleared))).
  { unfold clear_seen. destruct (state_file d) eqn:Hstate.
    - exists NothingToClear. split; [discriminate | by left].
    - exists Cleared. split; [discriminate | by right].
    - exists Cleared. split; [discriminate | by right]. }
  destruct Hcleared as (cleared & Hok & Hcase).
  assert (Hrun : ∀ d0, state_file d0 = Missing →
            mkdir_raises d0 = false → write_raises d0 = None →
            let outcome :=
              run_once true (negb (arg_no_email args)) (negb (arg_no_ntfy args))
                       source (inl <$> cfgs) (arg_min_price args)
                       (arg_max_price args) (arg_blacklist args) d0 in
            value_of outcome = Some ()
            ∧ (arg_no_email args = false → EvNotify Email all_hits ∈ log_of outcome)
            ∧ (arg_no_ntfy args = false → EvNotify Ntfy all_hits ∈ log_of outcome)
            ∧ state_file (disk_of outcome)
              = Content (saved_text (list_to_set (url <$> all_hits)))).
  { intros d0 Hstate Hmk Hwr outcome. subst outcome.
    assert (Hseen : value_of (load_seen_urls d0) = Some ∅)
      by (rewrite load_seen_urls_cases, Hstate; reflexivity).
    rewrite run_once_notify_cases. fold all_hits.
    rewrite (filter_new_listings_cases all_hits d0 ∅ Hseen).
    cbv zeta. rewrite !(filter_nothing_seen ∅ all_hits eq_refl).
    destruct all_hits as [|x hits] eqn:Hall; [congruence |].
    rewrite Hmk, Hwr. unfold value_of, disk_of, log_of. cbn [fst snd state_file].
    split; [reflexivity |]. split; [| split].
    - intros ->. cbn [negb]. rewrite !elem_of_app, !elem_of_cons. auto.
    - intros ->. cbn [negb]. rewrite !elem_of_app, !elem_of_cons. auto.
    - by rewrite (left_id_L ∅ (∪)). }
  destruct Hcase as [[Hsame Hstate] | Hremoved].
  - rewrite Hsame. exists cleared. eexists. split; [reflexivity |].
    split; [exact Hok |]. by apply Hrun.
  - rewrite Hremoved. exists cleared. eexists. split; [reflexivity |].
    split; [exact Hok |]. by apply Hrun.
Qed.

Lemma main_clear_seen_notifies_all_witness :
  ∃ cleared outcome,
    @main reference_runtime false laptop_source laptop_args two_urls_disk
    = Ran (Some cleared) outcome
    ∧ cleared ≠ ClearFailed
    ∧ value_of outcome = Some ()
    ∧ (arg_no_email laptop_args = false →
       EvNotify Email
         (@find_matching_listings reference_runtime laptop_source
            (inl <$> [laptop_cfg]) None None None) ∈ log_of outcome)
    ∧ (arg_no_ntfy laptop_args = false →
       EvNotify Ntfy
         (@find_matching_listings reference_runtime laptop_source
            (inl <$> [laptop_cfg]) None None None) ∈ log_of outcome)
    ∧ state_file (disk_of outcome)
      = Content (@saved_text reference_runtime
                   (list_to_set
                      (url <$> @find_matching_listings reference_runtime
                                 laptop_source (inl <$> [laptop_cfg])
                                 None None None))).
Proof.
  refine (main_clear_seen_notifies_all reference_runtime laptop_source
            laptop_args two_urls_disk [laptop_cfg] _ _ _ _ _ _ _).
  - discriminate.
  - vm_compute. reflexivity.
  - reflexivity.
  - reflexivity.
  - reflexivity.
  - reflexivity.
  - vm_compute. discriminate.
Defined.

(** ** Request URL *)

(** X20.  The URL requested for a term is the site's search prefix,
    the slug and "/k0", where the slug is the lowercased term with every
    space replaced by one hyphen and every other character kept.  So the
    URL starts with the prefix, holds no space, and the slug is as long
    as the lowercased term. *)
Theorem search_url_no_space :
  ∀ (R : PyRuntime) (t : str),
    startswith BASE_URL (search_url t) = true
    ∧ (32 ∉ search_url t)
    ∧ (∃ slug, search_url t = BASE_URL ++ slug ++ py "/k0"
               ∧ length slug = length (str_lower t)
               ∧ slug = (λ c, if c =? 32 then 45 else c) <$> str_lower t).
Proof.
  intros R t. unfold search_url. split; [| split].
  - apply startswith_prefix. eauto.
  - rewrite !not_elem_of_app. split; [| split].
    + apply (bool_decide_unpack _). vm_compute. reflexivity.
    + unfold replace_char. intros Hin.
      apply list_elem_of_In, in_flat_map in Hin as [c [_ Hc]].
      destruct (c =? 32) eqn:Hspace.
      * apply list_elem_of_In, list_elem_of_singleton in Hc. discriminate.
      * apply list_elem_of_In, list_elem_of_singleton in Hc.
        apply N.eqb_neq in Hspace. congruence.
    + apply (bool_decide_unpack _). vm_compute. reflexivity.
  - eexists. split; [reflexivity |]. split.
    + unfold replace_char. induction (str_lower t) as [|c s IH]; [reflexivity |].
      simpl. rewrite length_app, IH. by destruct (c =? 32).
    + unfold replace_char. induction (str_lower t) as [|c s IH]; [reflexivity |].
      rewrite fmap_cons, <- IH. simpl. by destruct (c =? 32).
Qed.

